(** * Sage: the research workflow of [app.py]

    A shallow embedding of the five graph nodes of [app.py]
    ([create_analysts], [conduct_interview], [write_report],
    [write_intro_conclusion], [finalize_report]) and of the graph that
    [build_research_graph] wires, followed by the properties of the
    specification that concern them.

    Conventions.
    - A Python [str] is a list of Unicode code points ([str := list N]);
      [lit] turns a Rocq string literal into such a list.
    - Python values whose shape the code inspects at run time (the decoded
      JSON document, the web-search results) are values of [pyval].
    - A Python call either returns or raises: [outcome A].
    - The completion, search and encyclopedia services, and the library
      functions the code calls ([json.loads], pydantic's validation of a
      [str] field, [repr]) are the fields of the class [Env]; service calls
      thread a world [W], so that two calls with the same arguments may
      answer differently. *)

From Stdlib Require Import ZArith SpecFloat String Ascii.
From Equations Require Import Equations.
From stdpp Require Import base option list gmap numbers.

Set Default Proof Using "Type".
Local Open Scope Z_scope.

(** ** Python strings *)

Definition char := N.
Abbreviation str := (list N).

Definition lit (s : string) : str := map N_of_ascii (list_ascii_of_string s).

(** The line feed, [\n]. *)
Definition nl : str := [10%N].

(** [str.isspace] on one code point: the characters [str.strip()] removes. *)
Definition py_isspace (c : char) : bool :=
  ((9 <=? c) && (c <=? 13) || (28 <=? c) && (c <=? 32)
   || (c =? 133) || (c =? 160) || (c =? 5760)
   || (8192 <=? c) && (c <=? 8202)
   || (c =? 8232) || (c =? 8233) || (c =? 8239) || (c =? 8287)
   || (c =? 12288))%N.

Fixpoint str_lstrip (s : str) : str :=
  match s with
  | c :: s' => if py_isspace c then str_lstrip s' else s
  | [] => []
  end.

Definition str_rstrip (s : str) : str := reverse (str_lstrip (reverse s)).

(** [s.strip()] *)
Definition str_strip (s : str) : str := str_rstrip (str_lstrip s).

(** [s.find(sub)]: the index of the leftmost occurrence, [None] for -1. *)
Fixpoint str_find (sub s : str) : option nat :=
  match s with
  | [] => if decide (sub = []) then Some 0%nat else None
  | _ :: s' =>
      if decide (sub `prefix_of` s) then Some 0%nat else S <$> str_find sub s'
  end.

(** [sub in s] *)
Definition occurs (sub s : str) : Prop := ∃ u v, s = u ++ sub ++ v.

(** No proper prefix of [p] is also a suffix of it, so that two occurrences
    of [p] never overlap. *)
Definition unbordered (p : str) : Prop :=
  Forall (λ k, take k p ≠ drop (length p - k) p) (seq 1 (length p - 1)).

(** No white space at either end. *)
Definition trimmed (s : str) : Prop :=
  (∀ c, hd_error s = Some c → py_isspace c = false)
  ∧ (∀ c, hd_error (reverse s) = Some c → py_isspace c = false).

(** A match of [sub] in [s] ends inside [s]; this is what makes the
    recursions of [split_parts] and [replace_parts] terminate. *)
Ltac find_in_bounds H :=
  match type of H with
  | str_find ?sub ?s = Some ?i =>
      assert (i + length sub ≤ length s)%nat;
      [ clear -H; revert i H;
        induction s as [|? ? IH]; intros i; simpl;
        [ case_decide; [|done]; intros [= <-]; subst; simpl; lia
        | let Hp := fresh in
          case_decide as Hp;
          [ intros [= <-]; apply prefix_length in Hp; simpl in *; lia
          | destruct (str_find sub _) as [j|]; [|done]; intros [= <-];
            specialize (IH j eq_refl); simpl; lia ] ]
      | ]
  end.

Definition inspect {A} (a : A) : {b | a = b} := exist _ a eq_refl.

(** The parts [s.split(sep)] cuts [s] into, for a non-empty [sep]: cut at
    the leftmost occurrence, go on after it. *)
Equations? split_parts (sep s : str) : list str by wf (length s) lt :=
  split_parts sep s with inspect (str_find sep s) := {
    | exist _ (Some i) H with decide (sep = []) := {
        | left _ => [s]
        | right _ => take i s :: split_parts sep (drop (i + length sep) s) };
    | exist _ None H => [s] }.
Proof.
  find_in_bounds H. rewrite length_drop.
  destruct sep; [done|]. simpl in *. lia.
Qed.

(** [s.replace(old, new)] for a non-empty [old]. *)
Equations? replace_parts (old new s : str) : str by wf (length s) lt :=
  replace_parts old new s with inspect (str_find old s) := {
    | exist _ (Some i) H with decide (old = []) := {
        | left _ => s
        | right _ =>
            take i s ++ new ++ replace_parts old new (drop (i + length old) s) };
    | exist _ None H => s }.
Proof.
  find_in_bounds H. rewrite length_drop.
  destruct old; [done|]. simpl in *. lia.
Qed.

(** [s.replace(old, new)]; an empty [old] matches before every character
    and at the end. *)
Definition str_replace (old new s : str) : str :=
  if decide (old = []) then new ++ concat (map (λ c, c :: new) s)
  else replace_parts old new s.

(** [sep.join(l)] for a list of strings. *)
Fixpoint str_join (sep : str) (l : list str) : str :=
  match l with
  | [] => []
  | [s] => s
  | s :: l' => s ++ sep ++ str_join sep l'
  end.

(** ** Python values and exceptions *)

Inductive exn :=
| JSONDecodeError     (* json.loads; a subclass of ValueError *)
| ValidationError     (* pydantic; a subclass of ValueError *)
| ValueError
| KeyError
| TypeError
| IndexError
| GraphRecursionError (* the graph ran out of steps *)
| ServiceError.       (* any failure of an external service *)

Inductive outcome (A : Type) :=
| Returned (a : A)
| Raised (e : exn).
Arguments Returned {A} a.
Arguments Raised {A} e.

#[export] Instance outcome_ret : MRet outcome := @Returned.
#[export] Instance outcome_bind : MBind outcome := λ A B f m,
  match m with
  | Returned a => f a
  | Raised e => Raised e
  end.
#[export] Instance outcome_fmap : FMap outcome := λ A B f m,
  match m with
  | Returned a => Returned (f a)
  | Raised e => Raised e
  end.

(** [s.split(sep)]: the empty separator is a [ValueError]. *)
Definition str_split (sep s : str) : outcome (list str) :=
  if decide (sep = []) then Raised ValueError else Returned (split_parts sep s).

#[warning="-register-all"]
Inductive pyval : Type :=
| PyNone
| PyBool (b : bool)
| PyInt (z : Z)
| PyFloat (f : spec_float)
| PyStr (s : str)
| PyList (l : list pyval)
| PyDict (d : gmap str pyval).

(** [bool(v)] *)
Definition truthy (v : pyval) : bool :=
  match v with
  | PyNone => false
  | PyBool b => b
  | PyInt z => negb (z =? 0)
  | PyFloat (S754_zero _) => false
  | PyFloat _ => true
  | PyStr s => negb (bool_decide (s = []))
  | PyList l => match l with [] => false | _ => true end
  | PyDict d => negb (bool_decide (dom d = ∅))
  end.

(** [a or b] *)
Definition py_or (a b : pyval) : pyval := if truthy a then a else b.

(** [d.get(k, default)] *)
Definition dict_get (d : gmap str pyval) (k : str) (default : pyval) : pyval :=
  match d !! k with
  | Some v => v
  | None => default
  end.

(** [v[k]] for a string key [k]. *)
Definition py_getitem (v : pyval) (k : str) : outcome pyval :=
  match v with
  | PyDict d => match d !! k with
                | Some x => Returned x
                | None => Raised KeyError
                end
  | _ => Raised TypeError
  end.

(** [l[i]] on a list, with Python's negative indices. *)
Definition list_getitem {A} (l : list A) (i : Z) : outcome A :=
  let n := Z.of_nat (length l) in
  let j := if i <? 0 then i + n else i in
  if (0 <=? j) && (j <? n) then
    match l !! Z.to_nat j with
    | Some x => Returned x
    | None => Raised IndexError
    end
  else Raised IndexError.

(** [sep.join(l)] when the items are Python values: every item has to be a
    [str]. *)
Fixpoint as_strs (l : list pyval) : outcome (list str) :=
  match l with
  | [] => Returned []
  | PyStr s :: l' => (s ::.) <$> as_strs l'
  | _ :: _ => Raised TypeError
  end.

Definition py_join (sep : str) (l : list pyval) : outcome str :=
  str_join sep <$> as_strs l.

(** ** The external world *)

Inductive message :=
| SystemMessage (text : str)
| HumanMessage (text : str).

(** A computation that calls services: it reads and advances the world, and
    returns or raises. *)
Definition M (W A : Type) : Type := W → outcome (A * W).

#[export] Instance M_ret {W} : MRet (M W) := λ A a w, Returned (a, w).
#[export] Instance M_bind {W} : MBind (M W) := λ A B f m w,
  match m w with
  | Returned (a, w') => f a w'
  | Raised e => Raised e
  end.

(** A step that uses no service. *)
Definition lift {W A} (o : outcome A) : M W A := λ w,
  match o with
  | Returned a => Returned (a, w)
  | Raised e => Raised e
  end.

(** What [app.py] calls and does not define.
    - [llm_invoke msgs]: [llm.invoke(msgs).content];
    - [tavily_search_invoke q]: the items that iterating over
      [tavily_search.invoke(q)] visits;
    - [wikipedia_load q]: the [page_content] of each document of
      [WikipediaLoader(query=q, load_max_docs=1).load()];
    - [json_loads]: [json.loads];
    - [pydantic_str v]: what pydantic makes of the value [v] given for a
      field declared [str], [None] when it rejects it; a [str] is always
      taken as it is (see [str_field]), so this is consulted on other
      values only, where pydantic 1 converts numbers and pydantic 2 refuses
      them;
    - [slice_hashable]: whether [d[:3]] on a dict is a failed lookup
      ([KeyError], Python 3.12 and later) or an unhashable key
      ([TypeError]);
    - [py_repr l]: [repr] of a list of strings, as an f-string prints it. *)
Class Env (W : Type) := {
  llm_invoke : list message → M W str;
  tavily_search_invoke : str → M W (list pyval);
  wikipedia_load : str → M W (list str);
  json_loads : str → outcome pyval;
  pydantic_str : pyval → option str;
  slice_hashable : bool;
  py_repr : list str → str;
}.

(** ** Data models *)

Record Analyst := {
  name : str;
  role : str;
  affiliation : str;
}.

Record ResearchState := {
  topic : str;
  analysts : list Analyst;
  current_analyst_index : Z;
  sections : list str;
  content : str;
  introduction : str;
  conclusion : str;
  final_report : str;
}.

(** A node returns a dict with the keys it changes; the graph writes each
    of them over the state. *)
Inductive assignment :=
| Set_analysts (v : list Analyst)
| Set_current_analyst_index (v : Z)
| Set_sections (v : list str)
| Set_content (v : str)
| Set_introduction (v : str)
| Set_conclusion (v : str)
| Set_final_report (v : str).

Definition assign (st : ResearchState) (a : assignment) : ResearchState :=
  match a with
  | Set_analysts v =>
      {| topic := topic st; analysts := v;
         current_analyst_index := current_analyst_index st;
         sections := sections st; content := content st;
         introduction := introduction st; conclusion := conclusion st;
         final_report := final_report st |}
  | Set_current_analyst_index v =>
      {| topic := topic st; analysts := analysts st;
         current_analyst_index := v;
         sections := sections st; content := content st;
         introduction := introduction st; conclusion := conclusion st;
         final_report := final_report st |}
  | Set_sections v =>
      {| topic := topic st; analysts := analysts st;
         current_analyst_index := current_analyst_index st;
         sections := v; content := content st;
         introduction := introduction st; conclusion := conclusion st;
         final_report := final_report st |}
  | Set_content v =>
      {| topic := topic st; analysts := analysts st;
         current_analyst_index := current_analyst_index st;
         sections := sections st; content := v;
         introduction := introduction st; conclusion := conclusion st;
         final_report := final_report st |}
  | Set_introduction v =>
      {| topic := topic st; analysts := analysts st;
         current_analyst_index := current_analyst_index st;
         sections := sections st; content := content st;
         introduction := v; conclusion := conclusion st;
         final_report := final_report st |}
  | Set_conclusion v =>
      {| topic := topic st; analysts := analysts st;
         current_analyst_index := current_analyst_index st;
         sections := sections st; content := content st;
         introduction := introduction st; conclusion := v;
         final_report := final_report st |}
  | Set_final_report v =>
      {| topic := topic st; analysts := analysts st;
         current_analyst_index := current_analyst_index st;
         sections := sections st; content := content st;
         introduction := introduction st; conclusion := conclusion st;
         final_report := v |}
  end.

Definition merge (st : ResearchState) (upd : list assignment) : ResearchState :=
  foldl assign st upd.

(** ** The graph nodes *)

Section Nodes.
Context {W : Type} {E : Env W}.

(** *** [create_analysts] *)

(** pydantic's validation of a field declared [str]. *)
Definition str_field (v : pyval) : option str :=
  match v with
  | PyStr s => Some s
  | _ => pydantic_str v
  end.

(** The [Analyst] built from the keyword arguments [v], as a dict:
    unpacking [v] needs a mapping; pydantic then wants the three fields,
    ignores any other key, and reports what is missing or ill-typed as
    one [ValidationError]. *)
Definition Analyst_of (v : pyval) : outcome Analyst :=
  match v with
  | PyDict d =>
      match d !! lit "name" ≫= str_field,
            d !! lit "role" ≫= str_field,
            d !! lit "affiliation" ≫= str_field with
      | Some n, Some r, Some a =>
          Returned {| name := n; role := r; affiliation := a |}
      | _, _, _ => Raised ValidationError
      end
  | _ => Raised TypeError
  end.

(** The items the comprehension visits: those of [v[:3]]. *)
Definition first_three (v : pyval) : outcome (list pyval) :=
  match v with
  | PyList l => Returned (take 3 l)
  | PyStr s => Returned ((λ c, PyStr [c]) <$> take 3 s)
  | PyDict _ => Raised (if slice_hashable then KeyError else TypeError)
  | _ => Raised TypeError
  end.

(** The body of the [try]. *)
Definition parse_analysts (text : str) : outcome (list Analyst) :=
  analysts_data ← json_loads text;
  entry ← py_getitem analysts_data (lit "analysts");
  items ← first_three entry;
  mapM Analyst_of items.

(** [except (json.JSONDecodeError, KeyError, ValueError)]; pydantic's
    [ValidationError] is a [ValueError]. *)
Definition parse_error_caught (e : exn) : bool :=
  match e with
  | JSONDecodeError | ValidationError | ValueError | KeyError => true
  | _ => false
  end.

Definition default_analysts : list Analyst :=
  [ {| name := lit "Default Analyst 1"; role := lit "General Researcher";
       affiliation := lit "University" |};
    {| name := lit "Default Analyst 2"; role := lit "Industry Expert";
       affiliation := lit "Tech Company" |};
    {| name := lit "Default Analyst 3"; role := lit "Policy Advisor";
       affiliation := lit "Government Think Tank" |} ].

(** The [try] statement as a whole (the handler also prints the error). *)
Definition analysts_or_default (text : str) : outcome (list Analyst) :=
  match parse_analysts text with
  | Returned l => Returned l
  | Raised e =>
      if parse_error_caught e then Returned default_analysts else Raised e
  end.

(** The request for the roster. *)
Definition analysts_request (state : ResearchState) : list message :=
  let system_message :=
    lit "Create 3 diverse AI analyst personas for the topic: " ++ topic state
    ++ lit "." ++ nl
    ++ lit "    Output in JSON format with a single key 'analysts' containing an array of objects, each with fields: name, role, affiliation." in
  [SystemMessage system_message].

Definition create_analysts (state : ResearchState) : M W (list assignment) :=
  analysts_response ← llm_invoke (analysts_request state);
  roster ← lift (analysts_or_default analysts_response);
  mret [Set_analysts roster; Set_current_analyst_index 0].

(** *** [conduct_interview] *)

(** What one turn of the loop over [search_docs] appends. *)
Definition search_content (doc : pyval) : list pyval :=
  match doc with
  | PyDict d =>
      [py_or (dict_get d (lit "content") (PyStr []))
             (dict_get d (lit "snippet") (PyStr []))]
  | PyStr s => [PyStr s]
  | _ => []
  end.

Definition search_contents (search_docs : list pyval) : list pyval :=
  concat (search_content <$> search_docs).

(** [context], from the two retrieved lists. *)
Definition interview_context (search_docs : list pyval) (wiki_docs : list str)
  : outcome str :=
  py_join nl (search_contents search_docs ++ (PyStr <$> wiki_docs)).

Definition conduct_interview (state : ResearchState) : M W (list assignment) :=
  analyst ← lift (list_getitem (analysts state) (current_analyst_index state));
  question ← llm_invoke
    [SystemMessage (lit "You are " ++ name analyst ++ lit ", " ++ role analyst
                    ++ lit ". Ask a question about " ++ topic state ++ lit ".")];
  search_query ← llm_invoke
    [SystemMessage (lit "Generate a search query based on the question.");
     HumanMessage question];
  search_docs ← tavily_search_invoke search_query;
  wiki_docs ← wikipedia_load search_query;
  context ← lift (interview_context search_docs wiki_docs);
  answer ← llm_invoke
    [SystemMessage (lit "You are an expert answering questions about "
                    ++ topic state ++ lit "." ++ nl
                    ++ lit "    Use this context to answer: " ++ context);
     HumanMessage question];
  let interview := lit "Q: " ++ question ++ nl ++ lit "A: " ++ answer in
  section ← llm_invoke
    [SystemMessage (lit "Summarize this interview about " ++ topic state
                    ++ lit " conducted by " ++ name analyst ++ lit ":");
     HumanMessage interview];
  mret [Set_sections (sections state ++ [section]);
        Set_current_analyst_index (current_analyst_index state + 1)].

(** *** [write_report] *)

Definition write_report (state : ResearchState) : M W (list assignment) :=
  report ← llm_invoke
    [SystemMessage (lit "Write a comprehensive report on " ++ topic state
                    ++ lit " based on these sections: "
                    ++ py_repr (sections state))];
  mret [Set_content report].

(** *** [write_intro_conclusion] *)

(** The split of the response into introduction and conclusion; the first
    branch is [len(parts) == 2]. *)
Definition split_intro_conclusion (text : str) : outcome (str * str) :=
  parts ← str_split (lit "Conclusion:") text;
  match parts with
  | [part0; part1] =>
      Returned (str_strip (str_replace (lit "Introduction:") [] part0),
                str_strip part1)
  | _ =>
      let mid_point := (length text / 2)%nat in
      Returned (str_strip (take mid_point text),
                str_strip (drop mid_point text))
  end.

(** The request for the introduction and the conclusion. *)
Definition intro_conclusion_request (state : ResearchState) : list message :=
  let system_message :=
    lit "Write an introduction and conclusion for this report on "
    ++ topic state ++ lit ". " ++ nl
    ++ lit "    Format your response as follows:" ++ nl
    ++ lit "    Introduction:" ++ nl
    ++ lit "    [Your introduction here]" ++ nl
    ++ lit "    Conclusion:" ++ nl
    ++ lit "    [Your conclusion here]" in
  [SystemMessage system_message; HumanMessage (content state)].

Definition write_intro_conclusion (state : ResearchState)
  : M W (list assignment) :=
  intro_conclusion ← llm_invoke (intro_conclusion_request state);
  '(intro, concl) ← lift (split_intro_conclusion intro_conclusion);
  mret [Set_introduction intro; Set_conclusion concl].

(** *** [finalize_report] *)

Definition finalize (intro body concl : str) : str :=
  intro ++ nl ++ nl ++ body ++ nl ++ nl ++ concl.

Definition finalize_report (state : ResearchState) : M W (list assignment) :=
  mret [Set_final_report
          (finalize (introduction state) (content state) (conclusion state))].

(** ** The graph of [build_research_graph] *)

Inductive node :=
| N_create_analysts
| N_conduct_interview
| N_write_report
| N_write_intro_conclusion
| N_finalize_report
| END.

Definition node_action (n : node) : ResearchState → M W (list assignment) :=
  match n with
  | N_create_analysts => create_analysts
  | N_conduct_interview => conduct_interview
  | N_write_report => write_report
  | N_write_intro_conclusion => write_intro_conclusion
  | N_finalize_report => finalize_report
  | END => λ _, mret []
  end.

(** The edges; the one out of [conduct_interview] is conditional. *)
Definition next_node (n : node) (x : ResearchState) : node :=
  match n with
  | N_create_analysts => N_conduct_interview
  | N_conduct_interview =>
      if current_analyst_index x <? Z.of_nat (length (analysts x))
      then N_conduct_interview else N_write_report
  | N_write_report => N_write_intro_conclusion
  | N_write_intro_conclusion => N_finalize_report
  | N_finalize_report => END
  | END => END
  end.

(** One step: run the node, merge what it returns, follow the edge. *)
Definition graph_step (n : node) (st : ResearchState)
  : M W (node * ResearchState) :=
  upd ← node_action n st;
  let st' := merge st upd in
  mret (next_node n st', st').

(** [graph.invoke]: steps until [END], at most [fuel] of them (the graph
    library bounds the number of steps of a run); the result is the list of
    the nodes that ran, and the last state. *)
Fixpoint invoke_from (fuel : nat) (n : node) (st : ResearchState)
  : M W (list node * ResearchState) :=
  match n, fuel with
  | END, _ => mret ([], st)
  | _, O => lift (Raised GraphRecursionError)
  | _, S fuel' =>
      '(n', st') ← graph_step n st;
      '(ran, st'') ← invoke_from fuel' n' st';
      mret (n :: ran, st'')
  end.

(** The state the user interface starts the graph from. *)
Definition initial_state (t : str) : ResearchState :=
  {| topic := t; analysts := []; current_analyst_index := 0; sections := [];
     content := []; introduction := []; conclusion := [];
     final_report := [] |}.

Definition graph_invoke (fuel : nat) (t : str)
  : M W (list node * ResearchState) :=
  invoke_from fuel N_create_analysts (initial_state t).

(** The configurations a run started on topic [t] goes through: the node
    about to run, the state it will receive, the world at that point. *)
Inductive reachable (t : str) : node → ResearchState → W → Prop :=
| reach_start w :
    reachable t N_create_analysts (initial_state t) w
| reach_step n st w n' st' w' :
    reachable t n st w →
    n ≠ END →
    graph_step n st w = Returned ((n', st'), w') →
    reachable t n' st' w'.

(** The services answer every call, and a search result that is a record
    has text in the two fields the conductor reads. *)
Definition text_value (v : pyval) : Prop := ∃ s, v = PyStr s.

Definition text_fields (doc : pyval) : Prop :=
  match doc with
  | PyDict d =>
      (∀ v, d !! lit "content" = Some v → text_value v)
      ∧ (∀ v, d !! lit "snippet" = Some v → text_value v)
  | _ => True
  end.

Definition services_answer : Prop :=
  (∀ msgs w, ∃ r w', llm_invoke msgs w = Returned (r, w'))
  ∧ (∀ q w, ∃ docs w',
        tavily_search_invoke q w = Returned (docs, w')
        ∧ Forall text_fields docs)
  ∧ (∀ q w, ∃ docs w', wikipedia_load q w = Returned (docs, w')).

End Nodes.

(** ** Malformed rosters *)

Definition is_dict (v : pyval) : Prop := ∃ d, v = PyDict d.

(** The malformed responses the generator recovers from: text that is not
    JSON, an object without the key [analysts], an array under that key
    whose first three entries are objects, one of which fails validation. *)
Definition recovered_malformation {W} {E : Env W} (text : str) : Prop :=
  json_loads text = Raised JSONDecodeError
  ∨ (∃ d, json_loads text = Returned (PyDict d) ∧ d !! lit "analysts" = None)
  ∨ (∃ d l, json_loads text = Returned (PyDict d)
            ∧ d !! lit "analysts" = Some (PyList l)
            ∧ Forall is_dict (take 3 l)
            ∧ Exists (λ v, Analyst_of v = Raised ValidationError) (take 3 l)).

(** ** Evidence normalization, as a function of one item

    The text of a retrieved item: for a record, its [content] when that is
    a non-empty text, otherwise its [snippet], otherwise the empty text;
    a plain string stands for itself; anything else has no text. *)
Definition evidence_text (doc : pyval) : option str :=
  match doc with
  | PyDict d =>
      match d !! lit "content" with
      | Some (PyStr (c :: s)) => Some (c :: s)
      | _ => match d !! lit "snippet" with
             | Some (PyStr s) => Some s
             | _ => Some []
             end
      end
  | PyStr s => Some s
  | _ => None
  end.

(** ** A scripted world

    Every completion call answers [reply], [json.loads] knows the one
    document [reply] and decodes it to [decoded], the search returns
    [docs] and the encyclopedia [pages]; pydantic is strict about [str]. *)
Definition scripted (reply : str) (decoded : outcome pyval)
    (docs : list pyval) (pages : list str) : Env unit :=
  {| llm_invoke := λ _ w, Returned (reply, w);
     tavily_search_invoke := λ _ w, Returned (docs, w);
     wikipedia_load := λ _ w, Returned (pages, w);
     json_loads := λ s,
       if decide (s = reply) then decoded else Raised JSONDecodeError;
     pydantic_str := λ _, None;
     slice_hashable := true;
     py_repr := str_join (lit ", ") |}.

(** The quotation mark. *)
Definition dq : str := [34%N].

Definition record (n r a : string) : pyval :=
  PyDict {[ lit "name" := PyStr (lit n); lit "role" := PyStr (lit r);
            lit "affiliation" := PyStr (lit a) ]}.

(** The response [{"analysts": []}] and what it decodes to. *)
Definition empty_roster_text : str :=
  lit "{" ++ dq ++ lit "analysts" ++ dq ++ lit ": []}".
Definition empty_roster_json : pyval := PyDict {[ lit "analysts" := PyList [] ]}.

(** The response [[]], a JSON document that is not an object. *)
Definition array_text : str := lit "[]".
Definition array_json : pyval := PyList [].

(** The evidence list of the specification: a record with a [content]
    field, a record with only a [snippet] field, a plain string, a record
    with neither. *)
Definition mixed_docs : list pyval :=
  [ PyDict {[ lit "content" := PyStr (lit "alpha") ]};
    PyDict {[ lit "snippet" := PyStr (lit "beta") ]};
    PyStr (lit "gamma");
    PyDict {[ lit "url" := PyStr (lit "delta") ]} ].

(** The labeled response of the specification. *)
Definition labeled_response : str :=
  lit "Introduction:" ++ nl ++ lit "A" ++ nl ++ lit "Conclusion:" ++ nl ++ lit "B".

Definition two_analysts : list Analyst :=
  [ {| name := lit "Ada"; role := lit "Physicist"; affiliation := lit "Lab" |};
    {| name := lit "Bo"; role := lit "Engineer"; affiliation := lit "Works" |} ].

(** The text of one record of a roster, [{"name": "n", "role": "r",
    "affiliation": "a"}]. *)
Definition record_text (n r a : string) : str :=
  lit "{" ++ dq ++ lit "name" ++ dq ++ lit ": " ++ dq ++ lit n ++ dq
  ++ lit ", " ++ dq ++ lit "role" ++ dq ++ lit ": " ++ dq ++ lit r ++ dq
  ++ lit ", " ++ dq ++ lit "affiliation" ++ dq ++ lit ": " ++ dq ++ lit a ++ dq
  ++ lit "}".

(** A response with four valid records, and what it decodes to. *)
Definition four_records_text : str :=
  lit "{" ++ dq ++ lit "analysts" ++ dq ++ lit ": ["
  ++ record_text "Ada" "Physicist" "Lab" ++ lit ", "
  ++ record_text "Bo" "Engineer" "Works" ++ lit ", "
  ++ record_text "Cy" "Economist" "Bank" ++ lit ", "
  ++ record_text "Di" "Historian" "Museum" ++ lit "]}".

Definition four_records_json : pyval :=
  PyDict {[ lit "analysts" :=
              PyList [ record "Ada" "Physicist" "Lab";
                       record "Bo" "Engineer" "Works";
                       record "Cy" "Economist" "Bank";
                       record "Di" "Historian" "Museum" ] ]}.

(** A labeled response whose introduction text names the label again. *)
Definition relabeled_response : str :=
  lit "Introduction:" ++ nl ++ lit "See Introduction: above" ++ nl
  ++ lit "Conclusion:" ++ nl ++ lit "B".

(** A state after the intro/conclusion writer. *)
Definition drafted (t i b c : string) : ResearchState :=
  {| topic := lit t; analysts := []; current_analyst_index := 0;
     sections := []; content := lit b; introduction := lit i;
     conclusion := lit c; final_report := [] |}.

(** ** Sample runs and the invariant of a run *)

(** The world in which the completion service answers [{"analysts": []}],
    and the state the generator then leaves. *)
Definition empty_roster_world : Env unit :=
  scripted empty_roster_text (Returned empty_roster_json) [] [].

Definition empty_roster_state : ResearchState :=
  merge (initial_state (lit "quantum computing"))
    [Set_analysts []; Set_current_analyst_index 0].

(** A state with the roster [two_analysts], about to enter the loop. *)
Definition two_analysts_state : ResearchState :=
  merge (initial_state (lit "quantum computing"))
    [Set_analysts two_analysts; Set_current_analyst_index 0].

(** The nodes that follow the interview loop. *)
Definition after_loop (n : node) : Prop :=
  n = N_write_report ∨ n = N_write_intro_conclusion
  ∨ n = N_finalize_report ∨ n = END.

Definition report_nodes : list node :=
  [N_write_report; N_write_intro_conclusion; N_finalize_report].

(** A world for a whole run: every completion is the labeled response, the
    search returns the mixed list, the encyclopedia one page. *)
Definition interview_world : Env unit :=
  scripted labeled_response (Raised JSONDecodeError) mixed_docs [lit "omega"].

Definition run_invariant (n : node) (state : ResearchState) : Prop :=
  0 ≤ current_analyst_index state ≤ Z.of_nat (length (analysts state))
  ∧ Z.of_nat (length (sections state)) = current_analyst_index state
  ∧ (n = N_create_analysts → sections state = [])
  ∧ (after_loop n →
     current_analyst_index state = Z.of_nat (length (analysts state))).

(** The state the generator leaves when it falls back on the default
    roster. *)
Definition default_roster_state : ResearchState :=
  merge (initial_state (lit "quantum computing"))
    [Set_analysts default_analysts; Set_current_analyst_index 0].

(** ** Further samples *)

(** A response with the label twice. *)
Definition twice_labeled_response : str := lit "x Conclusion: y Conclusion: z".

(** The response with the one record Ada, and what it decodes to. *)
Definition one_record_text : str :=
  lit "{" ++ dq ++ lit "analysts" ++ dq ++ lit ": ["
  ++ record_text "Ada" "Physicist" "Lab" ++ lit "]}".

Definition one_record_json : pyval :=
  PyDict {[ lit "analysts" := PyList [record "Ada" "Physicist" "Lab"] ]}.

(** A world whose completion service fails with [e]. *)
Definition service_down (e : exn) : Env unit :=
  {| llm_invoke := λ _ _, Raised e;
     tavily_search_invoke := λ _ w, Returned ([], w);
     wikipedia_load := λ _ w, Returned ([], w);
     json_loads := λ _, Raised JSONDecodeError;
     pydantic_str := λ _, None;
     slice_hashable := true;
     py_repr := str_join (lit ", ") |}.

(** A search result whose [content] is the number 5. *)
Definition numeric_docs : list pyval :=
  [ PyDict {[ lit "content" := PyInt 5 ]} ].

(** The response [{"analysts": ["Ada"]}] and what it decodes to. *)
Definition names_only_text : str :=
  lit "{" ++ dq ++ lit "analysts" ++ dq ++ lit ": [" ++ dq ++ lit "Ada" ++ dq
  ++ lit "]}".

Definition names_only_json : pyval :=
  PyDict {[ lit "analysts" := PyList [PyStr (lit "Ada")] ]}.

(** * Properties *)

(** ** Strings *)

Ltac by_clauses :=
  repeat match goal with
         | H : str_find _ _ = _ |- context [str_find _ _] => rewrite H
         end;
  try case_decide; done.

Lemma split_parts_eq sep s :
  split_parts sep s =
  match str_find sep s with
  | Some i =>
      if decide (sep = []) then [s]
      else take i s :: split_parts sep (drop (i + length sep) s)
  | None => [s]
  end.
Proof. funelim (split_parts sep s); by_clauses. Qed.

Lemma replace_parts_eq old new s :
  replace_parts old new s =
  match str_find old s with
  | Some i =>
      if decide (old = []) then s
      else take i s ++ new ++ replace_parts old new (drop (i + length old) s)
  | None => s
  end.
Proof. funelim (replace_parts old new s); by_clauses. Qed.

Lemma str_find_Some sub s i :
  str_find sub s = Some i →
  s = take i s ++ sub ++ drop (i + length sub) s.
Proof.
  revert i. induction s as [|c s IH]; intros i; simpl.
  - case_decide; [|done]. intros [= <-]. by subst.
  - case_decide as Hp.
    + intros [= <-]. destruct Hp as [k ->]. simpl.
      by rewrite drop_app_length.
    + destruct (str_find sub s) as [j|] eqn:E; [|done]. intros [= <-].
      simpl. f_equal. by apply IH.
Qed.

Lemma str_find_None sub s : str_find sub s = None ↔ ¬ occurs sub s.
Proof.
  split.
  - induction s as [|c s IH]; simpl.
    + case_decide; [done|]. intros _ (u & v & Huv).
      symmetry in Huv. apply app_eq_nil in Huv as [_ Huv].
      apply app_eq_nil in Huv as [? _]. done.
    + case_decide as Hp; [done|].
      destruct (str_find sub s) eqn:E; [done|]. intros _ (u & v & Huv).
      destruct u as [|d u]; simpl in Huv.
      * apply Hp. exists v. done.
      * injection Huv as -> ->. apply IH; [done|]. by exists u, v.
  - intros Hno. destruct (str_find sub s) as [i|] eqn:E; [|done].
    destruct Hno. apply str_find_Some in E. eexists _, _. exact E.
Qed.

(** The match [str_find] reports is the leftmost one. *)
Lemma str_find_leftmost sub s i u v :
  str_find sub s = Some i → s = u ++ sub ++ v → (i ≤ length u)%nat.
Proof.
  revert i u. induction s as [|c s IH]; intros i u; simpl.
  - case_decide; [|done]. intros [= <-] _. lia.
  - case_decide as Hp; [intros [= <-] _; lia|].
    destruct (str_find sub s) as [j|] eqn:E; [|done]. intros [= <-] Huv.
    destruct u as [|d u]; simpl in Huv.
    + destruct Hp. by exists v.
    + injection Huv as -> ->. simpl. specialize (IH j u eq_refl eq_refl). lia.
Qed.

Lemma str_find_bound sub s i :
  str_find sub s = Some i → (i + length sub ≤ length s)%nat.
Proof. intros H. find_in_bounds H. done. Qed.

Lemma split_parts_nonempty sep s : split_parts sep s ≠ [].
Proof.
  rewrite split_parts_eq. destruct (str_find sep s); [|done].
  by case_decide.
Qed.

Lemma split_parts_absent sep s : ¬ occurs sep s → split_parts sep s = [s].
Proof.
  intros Hno. apply str_find_None in Hno.
  by rewrite split_parts_eq, Hno.
Qed.

(** Two parts: the separator occurs once, between them. *)
Lemma split_parts_two sep s a b :
  split_parts sep s = [a; b] →
  s = a ++ sep ++ b ∧ ¬ occurs sep b.
Proof.
  rewrite split_parts_eq.
  destruct (str_find sep s) as [i|] eqn:Hi; [|done].
  case_decide as Hsep; [done|]. intros [= Ha Hb].
  rewrite split_parts_eq in Hb.
  destruct (str_find sep (drop (i + length sep) s)) as [j|] eqn:Hj.
  - case_decide; [done|]. injection Hb as _ Hb.
    by apply split_parts_nonempty in Hb.
  - injection Hb as <-. subst a. split.
    + by apply str_find_Some.
    + by apply str_find_None.
Qed.

Lemma no_straddle p x z :
  unbordered p → x ≠ [] → (length x < length p)%nat →
  ¬ p `prefix_of` x ++ p ++ z.
Proof.
  intros Hub Hx Hlt [k Hk].
  assert (Hp : p = x ++ take (length p - length x) p).
  { apply (f_equal (take (length p))) in Hk.
    rewrite take_app_length in Hk.
    rewrite !take_app, (take_ge x) in Hk by lia.
    replace (length p - length x - length p)%nat with 0%nat in Hk by lia.
    rewrite take_0, app_nil_r in Hk. done. }
  unfold unbordered in Hub. rewrite List.Forall_forall in Hub.
  apply (Hub (length p - length x)%nat).
  - apply in_seq. destruct x; [done|]. simpl in *. lia.
  - replace (length p - (length p - length x))%nat with (length x) by lia.
    rewrite Hp at 3. by rewrite drop_app_length.
Qed.

(** With an unbordered pattern, the leftmost match in [x ++ p ++ y] is the
    leftmost one inside [x], or else the [p] that follows [x]. *)
Lemma str_find_app_pattern p x y :
  p ≠ [] → unbordered p →
  str_find p (x ++ p ++ y) = Some (default (length x) (str_find p x)).
Proof.
  intros Hp Hub. induction x as [|c x IH].
  - destruct p as [|d p]; [done|]. cbn.
    rewrite decide_True by (by exists y). done.
  - cbn [app str_find].
    destruct (decide (p `prefix_of` c :: x)) as [Hpre|Hpre].
    + rewrite decide_True; [done|].
      change (c :: x ++ p ++ y) with ((c :: x) ++ p ++ y).
      by apply prefix_app_r.
    + rewrite decide_False.
      * rewrite IH. by destruct (str_find p x).
      * change (c :: x ++ p ++ y) with ((c :: x) ++ p ++ y).
        intros Hk. destruct (decide (length p ≤ length (c :: x))%nat).
        -- apply Hpre. destruct Hk as [k Hk].
           exists (drop (length p) (c :: x)).
           apply (f_equal (take (length p))) in Hk.
           rewrite take_app_length in Hk.
           rewrite take_app in Hk.
           replace (length p - length (c :: x))%nat with 0%nat in Hk by lia.
           rewrite take_0, app_nil_r in Hk. rewrite <- Hk at 1.
           by rewrite take_drop.
        -- by apply (no_straddle p (c :: x) y); [| |lia|].
Qed.

Lemma replace_parts_absent old new s :
  ¬ occurs old s → replace_parts old new s = s.
Proof.
  intros Hno. apply str_find_None in Hno.
  by rewrite replace_parts_eq, Hno.
Qed.

(** Replacement goes through an occurrence of an unbordered pattern: what
    is left of it and what is right of it are rewritten independently. *)
Lemma replace_parts_app_pattern p new x y :
  p ≠ [] → unbordered p →
  replace_parts p new (x ++ p ++ y) =
  replace_parts p new x ++ new ++ replace_parts p new y.
Proof.
  intros Hp Hub. remember (length x) as n eqn:Hn.
  revert x Hn. induction (lt_wf n) as [n _ IH]. intros x ->.
  rewrite (replace_parts_eq p new (x ++ p ++ y)).
  rewrite (replace_parts_eq p new x).
  rewrite str_find_app_pattern by done.
  rewrite decide_False by done.
  destruct (str_find p x) as [i|] eqn:Hi; simpl.
  - rewrite decide_False by done.
    pose proof (str_find_bound _ _ _ Hi) as Hb.
    assert (0 < length p)%nat by (destruct p; [done|simpl; lia]).
    rewrite take_app_le by lia. rewrite drop_app_le by lia.
    rewrite (IH (length (drop (i + length p) x))); [|rewrite length_drop; lia|done].
    by rewrite <- !app_assoc.
  - rewrite take_app_length. rewrite drop_app.
    rewrite drop_ge by lia.
    replace (length x + length p - length x)%nat with (length p) by lia.
    rewrite drop_app_length. done.
Qed.

Lemma str_lstrip_spec s :
  ∃ a, s = a ++ str_lstrip s ∧ Forall (λ c, py_isspace c = true) a
       ∧ ∀ c, hd_error (str_lstrip s) = Some c → py_isspace c = false.
Proof.
  induction s as [|c s (a & Hs & Ha & Hh)]; simpl.
  - exists []. split_and!; [done|constructor|done].
  - destruct (py_isspace c) eqn:Hc.
    + exists (c :: a). split_and!; [by rewrite Hs at 1|by constructor|done].
    + exists []. split_and!; [done|constructor|].
      intros d [= <-]. done.
Qed.

(** [str_strip s] is [s] without the white space at its two ends. *)
Lemma str_strip_spec s :
  ∃ a b, s = a ++ str_strip s ++ b
         ∧ Forall (λ c, py_isspace c = true) a
         ∧ Forall (λ c, py_isspace c = true) b
         ∧ trimmed (str_strip s).
Proof.
  destruct (str_lstrip_spec s) as (a & Hs & Ha & Hh).
  destruct (str_lstrip_spec (reverse (str_lstrip s))) as (b & Hr & Hb & Hl).
  assert (Ht : str_lstrip s = str_strip s ++ reverse b).
  { unfold str_strip, str_rstrip. rewrite <- reverse_app, <- Hr.
    by rewrite reverse_involutive. }
  exists a, (reverse b). split_and!.
  - by rewrite <- Ht.
  - done.
  - by apply Forall_reverse.
  - split.
    + intros c Hc. apply Hh. rewrite Ht.
      destruct (str_strip s); [done|]. done.
    + intros c Hc. apply Hl. unfold str_strip, str_rstrip in Hc.
      by rewrite reverse_involutive in Hc.
Qed.

(** ** Computations in [M] *)

Lemma bind_returned {W A B} (m : M W A) (f : A → M W B) w a w' :
  m w = Returned (a, w') → (m ≫= f) w = f a w'.
Proof. unfold mbind, M_bind. by intros ->. Qed.

Lemma bind_raised {W A B} (m : M W A) (f : A → M W B) w e :
  m w = Raised e → (m ≫= f) w = Raised e.
Proof. unfold mbind, M_bind. by intros ->. Qed.

Lemma lift_returned {W A} (a : A) (w : W) : lift (Returned a) w = Returned (a, w).
Proof. done. Qed.

Lemma lift_raised {W A} e (w : W) : lift (@Raised A e) w = Raised e.
Proof. done. Qed.

(** ** The intro/conclusion writer *)

Lemma conclusion_label_nonempty : lit "Conclusion:" ≠ [].
Proof. done. Qed.

Lemma introduction_label_nonempty : lit "Introduction:" ≠ [].
Proof. done. Qed.

Lemma introduction_label_unbordered : unbordered (lit "Introduction:").
Proof.
  unfold unbordered. apply Forall_fold_right. vm_compute.
  repeat split; discriminate.
Qed.

Lemma conclusion_label_unbordered : unbordered (lit "Conclusion:").
Proof.
  unfold unbordered. apply Forall_fold_right. vm_compute.
  repeat split; discriminate.
Qed.

(** A response with the label exactly once has two parts: what precedes the
    label and what follows it. *)
Lemma one_label_two_parts before after :
  ¬ occurs (lit "Conclusion:") before →
  ¬ occurs (lit "Conclusion:") after →
  str_split (lit "Conclusion:") (before ++ lit "Conclusion:" ++ after)
  = Returned [before; after].
Proof.
  intros Hb Ha. unfold str_split.
  rewrite decide_False by apply conclusion_label_nonempty. f_equal.
  rewrite split_parts_eq, str_find_app_pattern
    by auto using conclusion_label_nonempty, conclusion_label_unbordered.
  apply str_find_None in Hb. rewrite Hb. cbn [default].
  rewrite decide_False by apply conclusion_label_nonempty.
  rewrite take_app_length, drop_app, drop_ge by lia.
  replace (length before + length (lit "Conclusion:") - length before)%nat
    with (length (lit "Conclusion:")) by lia.
  rewrite drop_app_length. cbn [app]. by rewrite split_parts_absent.
Qed.

Lemma write_intro_conclusion_run {W} {E : Env W} state w text w' :
  llm_invoke (intro_conclusion_request state) w = Returned (text, w') →
  write_intro_conclusion state w =
  match split_intro_conclusion text with
  | Returned (intro, concl) =>
      Returned ([Set_introduction intro; Set_conclusion concl], w')
  | Raised e => Raised e
  end.
Proof.
  intros Hllm. unfold write_intro_conclusion.
  rewrite (bind_returned _ _ _ _ _ Hllm).
  destruct (split_intro_conclusion text) as [[intro concl]|e]; done.
Qed.

Lemma split_intro_conclusion_labeled text part0 part1 :
  str_split (lit "Conclusion:") text = Returned [part0; part1] →
  split_intro_conclusion text =
  Returned (str_strip (str_replace (lit "Introduction:") [] part0),
            str_strip part1).
Proof. unfold split_intro_conclusion. by intros ->. Qed.

Lemma split_intro_conclusion_fallback text :
  (¬ occurs (lit "Conclusion:") text
   ∨ ∃ parts, str_split (lit "Conclusion:") text = Returned parts
              ∧ length parts ≠ 2%nat) →
  split_intro_conclusion text =
  Returned (str_strip (take (length text / 2)%nat text),
            str_strip (drop (length text / 2)%nat text)).
Proof.
  unfold split_intro_conclusion, str_split.
  rewrite decide_False by apply conclusion_label_nonempty.
  intros [Hno|(parts & [= <-] & Hlen)].
  - by rewrite split_parts_absent.
  - cbn [mbind outcome_bind].
    destruct (split_parts _ text) as [|? [|? [|? ?]]]; done.
Qed.

(** C6. When splitting the response on "Conclusion:" gives exactly two
    parts, these are what precedes and what follows the label in the
    response, and the writer returns, both trimmed of white space at their
    ends, the first part with "Introduction:" removed as the introduction
    and the second part as the conclusion. *)
Theorem labeled_response_is_split_at_label {W} {E : Env W} state w text w'
    part0 part1 :
  llm_invoke (intro_conclusion_request state) w = Returned (text, w') →
  str_split (lit "Conclusion:") text = Returned [part0; part1] →
  let intro := str_strip (str_replace (lit "Introduction:") [] part0) in
  let concl := str_strip part1 in
  text = part0 ++ lit "Conclusion:" ++ part1
  ∧ write_intro_conclusion state w =
    Returned ([Set_introduction intro; Set_conclusion concl], w')
  ∧ trimmed intro ∧ trimmed concl.
Proof.
  intros Hllm Hsplit intro concl. split_and!.
  - unfold str_split in Hsplit. case_decide; [done|].
    injection Hsplit as Hsplit. by apply split_parts_two in Hsplit as [-> _].
  - rewrite (write_intro_conclusion_run _ _ _ _ Hllm).
    by rewrite (split_intro_conclusion_labeled _ _ _ Hsplit).
  - by destruct (str_strip_spec (str_replace (lit "Introduction:") [] part0))
      as (? & ? & _ & _ & _ & ?).
  - by destruct (str_strip_spec part1) as (? & ? & _ & _ & _ & ?).
Qed.

(** The response "Introduction:\nA\nConclusion:\nB" gives "A" and "B". *)
Lemma labeled_response_gives_A_and_B :
  write_intro_conclusion (E := scripted labeled_response (Raised JSONDecodeError) [] [])
    (initial_state (lit "quantum computing")) ()
  = Returned ([Set_introduction (lit "A"); Set_conclusion (lit "B")], ()).
Proof.
  refine (proj1 (proj2 (labeled_response_is_split_at_label
            (E := scripted labeled_response (Raised JSONDecodeError) [] [])
            (initial_state (lit "quantum computing")) () labeled_response ()
            (lit "Introduction:" ++ nl ++ lit "A" ++ nl) (nl ++ lit "B")
            _ _))).
  - reflexivity.
  - vm_compute. reflexivity.
Defined.

(** C7. When the response has no "Conclusion:" (or splitting on it gives a
    number of parts other than two), the writer cuts the response at
    [len // 2]: the first half, trimmed, is the introduction and the second
    half, trimmed, the conclusion; a response of 20 characters is cut after
    its 10th character. *)
Theorem unlabeled_response_is_cut_at_midpoint {W} {E : Env W} state w text w' :
  llm_invoke (intro_conclusion_request state) w = Returned (text, w') →
  (¬ occurs (lit "Conclusion:") text
   ∨ ∃ parts, str_split (lit "Conclusion:") text = Returned parts
              ∧ length parts ≠ 2%nat) →
  let mid_point := (length text / 2)%nat in
  let intro := str_strip (take mid_point text) in
  let concl := str_strip (drop mid_point text) in
  write_intro_conclusion state w =
  Returned ([Set_introduction intro; Set_conclusion concl], w')
  ∧ trimmed intro ∧ trimmed concl
  ∧ (length text = 20%nat →
     intro = str_strip (take 10 text) ∧ concl = str_strip (drop 10 text)).
Proof.
  intros Hllm Hno mid_point intro concl. split_and!.
  - rewrite (write_intro_conclusion_run _ _ _ _ Hllm).
    by rewrite (split_intro_conclusion_fallback _ Hno).
  - by destruct (str_strip_spec (take mid_point text)) as (? & ? & _ & _ & _ & ?).
  - by destruct (str_strip_spec (drop mid_point text)) as (? & ? & _ & _ & _ & ?).
  - intros Hlen. subst intro concl mid_point. by rewrite Hlen.
Qed.

(** The 20 characters "The report is short." give "The report" and
    "is short.". *)
Lemma twenty_characters_cut_at_ten :
  write_intro_conclusion
    (E := scripted (lit "The report is short.") (Raised JSONDecodeError) [] [])
    (initial_state (lit "quantum computing")) ()
  = Returned ([Set_introduction (lit "The report");
               Set_conclusion (lit "is short.")], ()).
Proof.
  refine (proj1 (unlabeled_response_is_cut_at_midpoint
            (E := scripted (lit "The report is short.") (Raised JSONDecodeError) [] [])
            (initial_state (lit "quantum computing")) ()
            (lit "The report is short.") () _ _)).
  - reflexivity.
  - left. apply str_find_None. vm_compute. reflexivity.
Defined.

(** C8. The finalizer calls no service and its result depends on the
    introduction, the body and the conclusion only: it is the introduction,
    a blank line, the body, a blank line and the conclusion, in this order,
    each of the three taken once (the length of the result is the sum of
    their lengths plus the four line feeds), and two calls on states that
    agree on the three give the same report. *)
Theorem finalize_report_is_pure_and_ordered {W} state (w : W) :
  let report :=
    introduction state ++ nl ++ nl ++ content state ++ nl ++ nl
    ++ conclusion state in
  finalize_report state w = Returned ([Set_final_report report], w)
  ∧ length report =
    (length (introduction state) + length (content state)
     + length (conclusion state) + 4)%nat
  ∧ take (length (introduction state)) report = introduction state
  ∧ take (length (content state))
      (drop (length (introduction state) + 2) report) = content state
  ∧ drop (length (introduction state) + 2 + length (content state) + 2) report
    = conclusion state
  ∧ ∀ state' (w' : W),
      introduction state' = introduction state →
      content state' = content state →
      conclusion state' = conclusion state →
      fst <$> finalize_report state' w' = fst <$> finalize_report state w.
Proof.
  intros report. split_and!.
  - done.
  - subst report. rewrite !length_app. simpl. lia.
  - subst report. by rewrite take_app_length.
  - subst report. rewrite drop_app, drop_ge by lia.
    replace (length (introduction state) + 2 - length (introduction state))%nat
      with 2%nat by lia.
    cbn. by rewrite drop_0, take_app_length.
  - subst report. rewrite drop_app, drop_ge by lia.
    replace (length (introduction state) + 2 + length (content state) + 2
             - length (introduction state))%nat
      with (S (S (length (content state) + 2))) by lia.
    cbn. rewrite drop_app, drop_ge by lia.
    replace (length (content state) + 2 - length (content state))%nat
      with 2%nat by lia.
    cbn. by rewrite ?drop_0.
  - intros state' w' Hi Hb Hc. unfold finalize_report. cbn.
    by rewrite Hi, Hb, Hc.
Qed.

(** Two states with the same three texts and different topics give one
    report. *)
Lemma finalize_report_twice :
  fst <$> finalize_report (drafted "tides" "Intro." "Body." "End.") ()
  = fst <$> finalize_report
              (drafted "quantum computing" "Intro." "Body." "End.") ().
Proof.
  refine (proj2 (proj2 (proj2 (proj2 (proj2
            (finalize_report_is_pure_and_ordered
               (drafted "quantum computing" "Intro." "Body." "End.") ())))))
            (drafted "tides" "Intro." "Body." "End.") () _ _ _);
    reflexivity.
Defined.

Lemma str_replace_nonempty old new s :
  old ≠ [] → str_replace old new s = replace_parts old new s.
Proof. intros. unfold str_replace. by rewrite decide_False. Qed.

(** C9. In the labeled case every occurrence of "Introduction:" in the
    first part is deleted, wherever it stands: if the first part is
    [x ++ "Introduction:" ++ y], the introduction is what remains of [x]
    followed by what remains of [y], trimmed; when the label occurs in
    neither, that is [x ++ y], trimmed. *)
Theorem introduction_label_is_removed_everywhere {W} {E : Env W} state w
    text w' part0 part1 x y :
  llm_invoke (intro_conclusion_request state) w = Returned (text, w') →
  str_split (lit "Conclusion:") text = Returned [part0; part1] →
  part0 = x ++ lit "Introduction:" ++ y →
  let remains := str_replace (lit "Introduction:") [] in
  write_intro_conclusion state w =
  Returned ([Set_introduction (str_strip (remains x ++ remains y));
             Set_conclusion (str_strip part1)], w')
  ∧ (¬ occurs (lit "Introduction:") x → remains x = x)
  ∧ (¬ occurs (lit "Introduction:") y → remains y = y).
Proof.
  intros Hllm Hsplit -> remains. split_and!.
  - rewrite (write_intro_conclusion_run _ _ _ _ Hllm).
    rewrite (split_intro_conclusion_labeled _ _ _ Hsplit).
    subst remains. cbv beta.
    rewrite !str_replace_nonempty by apply introduction_label_nonempty.
    rewrite replace_parts_app_pattern
      by auto using introduction_label_nonempty, introduction_label_unbordered.
    done.
  - intros Hx. subst remains. cbv beta.
    rewrite str_replace_nonempty by apply introduction_label_nonempty.
    by apply replace_parts_absent.
  - intros Hy. subst remains. cbv beta.
    rewrite str_replace_nonempty by apply introduction_label_nonempty.
    by apply replace_parts_absent.
Qed.

(** In the response "Introduction:\nSee Introduction: above\nConclusion:\nB"
    the label inside the introduction text goes as well. *)
Lemma interior_label_is_removed :
  write_intro_conclusion
    (E := scripted relabeled_response (Raised JSONDecodeError) [] [])
    (initial_state (lit "quantum computing")) ()
  = Returned ([Set_introduction (lit "See  above"); Set_conclusion (lit "B")], ()).
Proof.
  refine (proj1 (introduction_label_is_removed_everywhere
            (E := scripted relabeled_response (Raised JSONDecodeError) [] [])
            (initial_state (lit "quantum computing")) () relabeled_response ()
            (lit "Introduction:" ++ nl ++ lit "See Introduction: above" ++ nl)
            (nl ++ lit "B")
            (lit "Introduction:" ++ nl ++ lit "See ") (lit " above" ++ nl)
            _ _ _)).
  - reflexivity.
  - vm_compute. reflexivity.
  - reflexivity.
Defined.

(** ** The persona generator *)

Lemma mapM_returned {A B} (f : A → outcome B) l k :
  mapM f l = Returned k ↔ Forall2 (λ x y, f x = Returned y) l k.
Proof.
  revert k. induction l as [|x l IH]; intros k; simpl.
  - split; [intros [= <-]; constructor|by inversion 1].
  - unfold mbind, outcome_bind, mret, outcome_ret.
    destruct (f x) as [y|e] eqn:Hx.
    + destruct (mapM f l) as [k'|e] eqn:Hl.
      * split.
        -- intros [= <-]. constructor; [done|]. by apply IH.
        -- inversion 1 as [|? y' ? k'' Hy Hk]; subst.
           apply IH in Hk. congruence.
      * split; [done|]. inversion 1 as [|? y' ? k'' Hy Hk]; subst.
        by apply IH in Hk.
    + split; [done|]. inversion 1; congruence.
Qed.

Lemma mapM_raised_first {A B} (f : A → outcome B) l e :
  mapM f l = Raised e → Exists (λ x, f x = Raised e) l.
Proof.
  induction l as [|x l IH]; simpl; [done|].
  unfold mbind, outcome_bind, mret, outcome_ret.
  destruct (f x) as [y|e'] eqn:Hx.
  - destruct (mapM f l) as [k'|e'']; [done|].
    intros [= ->]. right. by apply IH.
  - intros [= ->]. by left.
Qed.

Lemma first_three_length {W} {E : Env W} v items :
  first_three v = Returned items → (length items ≤ 3)%nat.
Proof.
  destruct v; simpl; try done; intros [= <-].
  - rewrite length_fmap, length_take. lia.
  - rewrite length_take. lia.
Qed.

Lemma parse_analysts_length {W} {E : Env W} text roster :
  parse_analysts text = Returned roster → (length roster ≤ 3)%nat.
Proof.
  unfold parse_analysts, mbind, outcome_bind.
  destruct (json_loads text) as [data|]; [|done].
  destruct (py_getitem data _) as [entry|]; [|done].
  destruct (first_three entry) as [items|] eqn:Hitems; [|done].
  intros Hroster%mapM_returned%Forall2_length.
  apply first_three_length in Hitems. lia.
Qed.

Lemma default_analysts_valid :
  length default_analysts = 3%nat
  ∧ Forall (λ a, name a ≠ [] ∧ role a ≠ [] ∧ affiliation a ≠ [])
      default_analysts.
Proof. split; [done|]. repeat constructor; done. Qed.

Lemma analysts_or_default_length {W} {E : Env W} text roster :
  analysts_or_default text = Returned roster → (length roster ≤ 3)%nat.
Proof.
  unfold analysts_or_default.
  destruct (parse_analysts text) as [l|e] eqn:Hparse.
  - intros [= <-]. by eapply parse_analysts_length.
  - destruct (parse_error_caught e); [|done]. by intros [= <-].
Qed.

Lemma create_analysts_run {W} {E : Env W} state w text w' :
  llm_invoke (analysts_request state) w = Returned (text, w') →
  create_analysts state w =
  match analysts_or_default text with
  | Returned roster =>
      Returned ([Set_analysts roster; Set_current_analyst_index 0], w')
  | Raised e => Raised e
  end.
Proof.
  intros Hllm. unfold create_analysts.
  rewrite (bind_returned _ _ _ _ _ Hllm).
  by destruct (analysts_or_default text).
Qed.

Lemma create_analysts_returned {W} {E : Env W} state w upd w' :
  create_analysts state w = Returned (upd, w') →
  ∃ text roster,
    llm_invoke (analysts_request state) w = Returned (text, w')
    ∧ analysts_or_default text = Returned roster
    ∧ upd = [Set_analysts roster; Set_current_analyst_index 0].
Proof.
  unfold create_analysts, mbind, M_bind.
  destruct (llm_invoke _ w) as [[text w1]|]; [|done].
  destruct (analysts_or_default text) as [roster|] eqn:Hroster; [|done].
  cbn. intros [= <- <-]. by exists text, roster.
Qed.

(** Whatever the response, a roster that is returned has at most three
    entries and comes with the cursor at 0. *)
Lemma create_analysts_bounded {W} {E : Env W} state w upd w' :
  create_analysts state w = Returned (upd, w') →
  ∃ roster, upd = [Set_analysts roster; Set_current_analyst_index 0]
            ∧ (length roster ≤ 3)%nat.
Proof.
  intros (text & roster & _ & Hroster & ->)%create_analysts_returned.
  exists roster. split; [done|]. by eapply analysts_or_default_length.
Qed.

Lemma Analyst_of_dict {W} {E : Env W} v :
  is_dict v →
  (∃ a, Analyst_of v = Returned a) ∨ Analyst_of v = Raised ValidationError.
Proof.
  intros [d ->]. simpl.
  destruct (_ ≫= str_field); [|by right].
  destruct (_ ≫= str_field); [|by right].
  destruct (_ ≫= str_field); [|by right].
  left. eauto.
Qed.

Lemma recovered_malformation_caught {W} {E : Env W} text :
  recovered_malformation text →
  ∃ e, parse_analysts text = Raised e ∧ parse_error_caught e = true.
Proof.
  unfold parse_analysts, mbind, outcome_bind.
  intros [Hjson|[(d & -> & Hkey)|(d & l & -> & Hkey & Hdicts & Hbad)]].
  - rewrite Hjson. by exists JSONDecodeError.
  - simpl. rewrite Hkey. by exists KeyError.
  - simpl. rewrite Hkey. simpl. exists ValidationError. split; [|done].
    induction Hdicts as [|v items Hv Hdicts IH]; [by inversion Hbad|].
    simpl. unfold mbind, outcome_bind.
    destruct (Analyst_of_dict v Hv) as [[a Ha]|Ha]; rewrite Ha; [|done].
    inversion Hbad as [? ? Hv'|? ? Hbad']; subst; [congruence|].
    fold (mapM Analyst_of items). by rewrite IH.
Qed.

(** C10. When the response decodes to a roster of more than three valid
    records, the generator returns the first three, in the order of the
    response, and nothing of the others; and whatever the response, a
    roster it returns has at most three entries. *)
Theorem roster_keeps_the_first_three {W} {E : Env W} state w :
  (∀ text w' d l,
     llm_invoke (analysts_request state) w = Returned (text, w') →
     json_loads text = Returned (PyDict d) →
     d !! lit "analysts" = Some (PyList l) →
     (3 < length l)%nat →
     Forall (λ v, ∃ a, Analyst_of v = Returned a) l →
     ∃ roster,
       create_analysts state w =
       Returned ([Set_analysts roster; Set_current_analyst_index 0], w')
       ∧ Forall2 (λ v a, Analyst_of v = Returned a) (take 3 l) roster
       ∧ length roster = 3%nat)
  ∧ (∀ upd w',
       create_analysts state w = Returned (upd, w') →
       ∃ roster, upd = [Set_analysts roster; Set_current_analyst_index 0]
                 ∧ (length roster ≤ 3)%nat).
Proof.
  split; [|by apply create_analysts_bounded].
  intros text w' d l Hllm Hjson Hkey Hlen Hvalid.
  assert (∃ roster, mapM Analyst_of (take 3 l) = Returned roster)
    as [roster Hroster].
  { apply Forall_take with (n := 3%nat) in Hvalid.
    induction Hvalid as [|v items [a Ha] _ [k Hk]]; [by exists []|].
    exists (a :: k). simpl. rewrite Ha. simpl.
    by rewrite Hk. }
  exists roster. split_and!.
  - rewrite (create_analysts_run _ _ _ _ Hllm).
    unfold analysts_or_default, parse_analysts. rewrite Hjson. simpl.
    rewrite Hkey. simpl. by rewrite Hroster.
  - by apply mapM_returned.
  - apply mapM_returned, Forall2_length in Hroster.
    rewrite length_take in Hroster. lia.
Qed.

(** Of the four records Ada, Bo, Cy and Di, the roster has the first
    three. *)
Lemma fourth_record_is_dropped :
  create_analysts
    (E := scripted four_records_text (Returned four_records_json) [] [])
    (initial_state (lit "quantum computing")) ()
  = Returned
      ([Set_analysts
          [ {| name := lit "Ada"; role := lit "Physicist";
               affiliation := lit "Lab" |};
            {| name := lit "Bo"; role := lit "Engineer";
               affiliation := lit "Works" |};
            {| name := lit "Cy"; role := lit "Economist";
               affiliation := lit "Bank" |} ];
        Set_current_analyst_index 0], ()).
Proof.
  destruct (proj1 (roster_keeps_the_first_three
              (E := scripted four_records_text (Returned four_records_json) [] [])
              (initial_state (lit "quantum computing")) ())
              four_records_text ()
              {[ lit "analysts" :=
                   PyList [ record "Ada" "Physicist" "Lab";
                            record "Bo" "Engineer" "Works";
                            record "Cy" "Economist" "Bank";
                            record "Di" "Historian" "Museum" ] ]}
              [ record "Ada" "Physicist" "Lab";
                record "Bo" "Engineer" "Works";
                record "Cy" "Economist" "Bank";
                record "Di" "Historian" "Museum" ])
    as (roster & Hrun & Hfirst & _).
  - reflexivity.
  - vm_compute. reflexivity.
  - vm_compute. reflexivity.
  - simpl. lia.
  - repeat constructor; eexists; vm_compute; reflexivity.
  - rewrite Hrun. clear Hrun.
    repeat match goal with
           | H : Forall2 _ _ _ |- _ => inversion H; clear H; subst
           end.
    repeat match goal with
           | H : Analyst_of _ = Returned _ |- _ =>
               vm_compute in H; injection H as <-
           end.
    reflexivity.
Defined.

(** C3, as amended. Whenever the generator returns, the roster has at most
    three records and the cursor is 0; and on a malformed response that it
    recovers from (no JSON at all, as for an empty body; no key
    [analysts]; a record among the first three that fails validation) the
    roster is the fallback one: exactly three records, with non-empty name,
    role and affiliation. *)
Theorem roster_is_bounded_and_default_when_recovered {W} {E : Env W} state w :
  (∀ upd w',
     create_analysts state w = Returned (upd, w') →
     ∃ roster, upd = [Set_analysts roster; Set_current_analyst_index 0]
               ∧ (length roster ≤ 3)%nat)
  ∧ (∀ text w',
       llm_invoke (analysts_request state) w = Returned (text, w') →
       recovered_malformation text →
       create_analysts state w =
       Returned ([Set_analysts default_analysts; Set_current_analyst_index 0],
                 w'))
  ∧ length default_analysts = 3%nat
  ∧ Forall (λ a, name a ≠ [] ∧ role a ≠ [] ∧ affiliation a ≠ [])
      default_analysts.
Proof.
  split_and!; [by apply create_analysts_bounded| |apply default_analysts_valid..].
  intros text w' Hllm (e & Hparse & He)%recovered_malformation_caught.
  rewrite (create_analysts_run _ _ _ _ Hllm).
  unfold analysts_or_default. by rewrite Hparse, He.
Qed.

(** An empty body is no JSON: the fallback roster. *)
Lemma empty_body_gives_default_roster :
  create_analysts (E := scripted [] (Raised JSONDecodeError) [] [])
    (initial_state (lit "quantum computing")) ()
  = Returned ([Set_analysts default_analysts; Set_current_analyst_index 0], ()).
Proof.
  refine (proj1 (proj2 (roster_is_bounded_and_default_when_recovered
            (E := scripted [] (Raised JSONDecodeError) [] [])
            (initial_state (lit "quantum computing")) ())) [] () _ _).
  - reflexivity.
  - left. reflexivity.
Defined.

(** C3, as stated, fails on the response [{"analysts": []}]: it is well
    formed, nothing is raised, and the roster has no record at all. *)
Lemma empty_array_gives_empty_roster :
  create_analysts
    (E := scripted empty_roster_text (Returned empty_roster_json) [] [])
    (initial_state (lit "quantum computing")) ()
  = Returned ([Set_analysts []; Set_current_analyst_index 0], ())
  ∧ length (@nil Analyst) ≠ 3%nat.
Proof. split; [vm_compute; reflexivity|done]. Qed.

(** C2. The response [[]] is valid JSON but no object: looking up
    ['analysts'] in a list is a [TypeError], which the [except] clause does
    not list, and the generator raises it instead of falling back. *)
Lemma non_object_response_is_not_recovered :
  create_analysts (E := scripted array_text (Returned array_json) [] [])
    (initial_state (lit "quantum computing")) ()
  = Raised TypeError.
Proof. vm_compute. reflexivity. Qed.

(** ** Evidence normalization *)

Lemma as_strs_texts l : as_strs (PyStr <$> l) = Returned l.
Proof.
  induction l as [|s l IH]; [done|].
  change (as_strs (PyStr <$> s :: l)) with ((s ::.) <$> as_strs (PyStr <$> l)).
  by rewrite IH.
Qed.

Lemma search_content_text doc :
  text_fields doc →
  search_content doc = PyStr <$> option_list (evidence_text doc).
Proof.
  destruct doc as [| | | | |l|d]; try done. simpl. intros [Hc Hs].
  unfold dict_get, py_or.
  destruct (d !! lit "content") as [v|] eqn:Hv.
  - destruct (Hc v eq_refl) as [s ->]. destruct s as [|c s]; simpl.
    + destruct (d !! lit "snippet") as [v'|] eqn:Hv'; [|done].
      by destruct (Hs v' eq_refl) as [s' ->].
    + done.
  - simpl. destruct (d !! lit "snippet") as [v'|] eqn:Hv'; [|done].
    by destruct (Hs v' eq_refl) as [s' ->].
Qed.

Lemma search_contents_texts search_docs :
  Forall text_fields search_docs →
  search_contents search_docs = PyStr <$> omap evidence_text search_docs.
Proof.
  unfold search_contents. induction 1 as [|doc docs Hdoc _ IH]; [done|].
  cbn [fmap list_fmap concat omap list_omap].
  rewrite IH, (search_content_text _ Hdoc).
  by destruct (evidence_text doc).
Qed.

Lemma interview_context_texts search_docs wiki_docs :
  Forall text_fields search_docs →
  interview_context search_docs wiki_docs =
  Returned (str_join nl (omap evidence_text search_docs ++ wiki_docs)).
Proof.
  intros Hdocs. unfold interview_context, py_join.
  by rewrite (search_contents_texts _ Hdocs), <- fmap_app, as_strs_texts.
Qed.

(** C1, as amended. Each retrieved item is normalized to text (a record by
    its [content], else its [snippet], else the empty text; a plain string
    by itself), an item that is neither a record nor a string is skipped,
    and the texts are joined with line feeds, the search results first and
    the encyclopedia pages after them, in their order. A record with
    neither field is kept, as the empty text. *)
Theorem evidence_is_normalized_and_joined search_docs wiki_docs :
  Forall text_fields search_docs →
  search_contents search_docs = PyStr <$> omap evidence_text search_docs
  ∧ interview_context search_docs wiki_docs =
    Returned (str_join nl (omap evidence_text search_docs ++ wiki_docs))
  ∧ ∀ d, d !! lit "content" = None → d !! lit "snippet" = None →
         evidence_text (PyDict d) = Some [].
Proof.
  intros Hdocs. split_and!.
  - by apply search_contents_texts.
  - by apply interview_context_texts.
  - intros d Hc Hs. simpl. by rewrite Hc, Hs.
Qed.

(** The mixed list gives four texts: "alpha", "beta", "gamma" and the empty
    one, and with the page "omega" the context
    "alpha\nbeta\ngamma\n\nomega". *)
Lemma mixed_docs_give_four_texts :
  search_contents mixed_docs
  = [PyStr (lit "alpha"); PyStr (lit "beta"); PyStr (lit "gamma"); PyStr []]
  ∧ interview_context mixed_docs [lit "omega"]
    = Returned (lit "alpha" ++ nl ++ lit "beta" ++ nl ++ lit "gamma" ++ nl
                ++ nl ++ lit "omega").
Proof.
  destruct (evidence_is_normalized_and_joined mixed_docs [lit "omega"])
    as (Hitems & Hcontext & _).
  - repeat first [apply Forall_nil | apply Forall_cons];
      try exact I; split; intros v Hv; vm_compute in Hv;
      try discriminate; injection Hv as <-; by eexists.
  - rewrite Hitems, Hcontext. split; vm_compute; reflexivity.
Defined.

(** C1, as stated, fails on the mixed list: the record with neither field
    is not dropped, it contributes the empty text, and there are four items
    and not three. *)
Lemma empty_field_record_is_kept :
  search_contents mixed_docs
  = [PyStr (lit "alpha"); PyStr (lit "beta"); PyStr (lit "gamma"); PyStr []]
  ∧ length (search_contents mixed_docs) ≠ 3%nat
  ∧ ¬ Forall (λ v, v ≠ PyStr []) (search_contents mixed_docs).
Proof.
  assert (H : search_contents mixed_docs
              = [PyStr (lit "alpha"); PyStr (lit "beta"); PyStr (lit "gamma");
                 PyStr []]) by (vm_compute; reflexivity).
  rewrite H. split_and!; [done|done|].
  intros Hall. do 3 (inversion Hall as [|? ? _ Hall']; clear Hall;
                     rename Hall' into Hall; subst).
  by inversion Hall.
Qed.

(** ** The interview conductor *)

Lemma list_getitem_returned {A} (l : list A) i x :
  list_getitem l i = Returned x → - Z.of_nat (length l) ≤ i < Z.of_nat (length l).
Proof.
  unfold list_getitem.
  destruct (i <? 0) eqn:Hneg; destruct (_ && _) eqn:Hin; try done; lia.
Qed.

Lemma list_getitem_in_range {A} (l : list A) i :
  0 ≤ i < Z.of_nat (length l) → ∃ x, list_getitem l i = Returned x.
Proof.
  intros Hi. unfold list_getitem.
  replace (i <? 0) with false by lia.
  replace ((0 <=? i) && (i <? Z.of_nat (length l))) with true by lia.
  destruct (l !! Z.to_nat i) as [x|] eqn:Hx; [by exists x|].
  apply lookup_ge_None in Hx. lia.
Qed.

Lemma interview_context_returns search_docs wiki_docs :
  Forall text_fields search_docs →
  ∃ context, interview_context search_docs wiki_docs = Returned context.
Proof.
  intros Hdocs. eexists. by apply interview_context_texts.
Qed.

Lemma conduct_interview_returned {W} {E : Env W} state w upd w' :
  conduct_interview state w = Returned (upd, w') →
  ∃ analyst section,
    list_getitem (analysts state) (current_analyst_index state)
    = Returned analyst
    ∧ upd = [Set_sections (sections state ++ [section]);
             Set_current_analyst_index (current_analyst_index state + 1)].
Proof.
  unfold conduct_interview, mbind, M_bind.
  destruct (list_getitem _ _) as [analyst|]; [|done]. cbn [lift].
  repeat match goal with
         | |- context [match ?m ?w0 with _ => _ end] =>
             destruct (m w0) as [[? ?]|]; [|done]
         | |- context [match lift ?o ?w0 with _ => _ end] =>
             destruct o; cbn [lift]; [|done]
         end.
  cbn. intros [= <- <-]. eauto.
Qed.

Lemma conduct_interview_completes {W} {E : Env W} state w :
  services_answer →
  0 ≤ current_analyst_index state < Z.of_nat (length (analysts state)) →
  ∃ section w',
    conduct_interview state w =
    Returned ([Set_sections (sections state ++ [section]);
               Set_current_analyst_index (current_analyst_index state + 1)],
              w').
Proof.
  intros (Hllm & Hsearch & Hwiki) Hidx.
  destruct (list_getitem_in_range _ _ Hidx) as [analyst Hanalyst].
  unfold conduct_interview. rewrite Hanalyst.
  unfold mbind at 1, M_bind at 1. cbn [lift].
  destruct (Hllm [SystemMessage (lit "You are " ++ name analyst ++ lit ", "
                                 ++ role analyst
                                 ++ lit ". Ask a question about "
                                 ++ topic state ++ lit ".")] w)
    as (question & w1 & Hq).
  rewrite (bind_returned _ _ _ _ _ Hq).
  destruct (Hllm [SystemMessage
                    (lit "Generate a search query based on the question.");
                  HumanMessage question] w1) as (query & w2 & Hquery).
  rewrite (bind_returned _ _ _ _ _ Hquery).
  destruct (Hsearch query w2) as (docs & w3 & Hdocs & Htext).
  rewrite (bind_returned _ _ _ _ _ Hdocs).
  destruct (Hwiki query w3) as (pages & w4 & Hpages).
  rewrite (bind_returned _ _ _ _ _ Hpages).
  destruct (interview_context_returns docs pages Htext) as [context Hcontext].
  rewrite Hcontext. unfold mbind at 1, M_bind at 1. cbn [lift].
  match goal with
  | |- context [llm_invoke ?msgs ≫= _] =>
      destruct (Hllm msgs w4) as (answer & w5 & Hanswer)
  end.
  rewrite (bind_returned _ _ _ _ _ Hanswer).
  match goal with
  | |- context [llm_invoke ?msgs ≫= _] =>
      destruct (Hllm msgs w5) as (section & w6 & Hsection)
  end.
  rewrite (bind_returned _ _ _ _ _ Hsection).
  by exists section, w6.
Qed.

(** ** The graph *)

Lemma split_intro_conclusion_returns text :
  ∃ intro concl, split_intro_conclusion text = Returned (intro, concl).
Proof.
  unfold split_intro_conclusion, str_split.
  rewrite decide_False by apply conclusion_label_nonempty.
  cbn [mbind outcome_bind].
  destruct (split_parts _ text) as [|? [|? [|? ?]]]; eauto.
Qed.

Lemma graph_step_conduct {W} {E : Env W} state w n' state' w' :
  graph_step N_conduct_interview state w = Returned ((n', state'), w') →
  (∃ section, sections state' = sections state ++ [section])
  ∧ current_analyst_index state' = current_analyst_index state + 1
  ∧ analysts state' = analysts state
  ∧ n' = (if current_analyst_index state' <? Z.of_nat (length (analysts state'))
          then N_conduct_interview else N_write_report)
  ∧ - Z.of_nat (length (analysts state)) ≤ current_analyst_index state
    < Z.of_nat (length (analysts state)).
Proof.
  unfold graph_step. cbn [node_action]. unfold mbind, M_bind.
  destruct (conduct_interview state w) as [[upd w1]|] eqn:Hrun; [|done].
  apply conduct_interview_returned in Hrun
    as (analyst & section & Hidx%list_getitem_returned & ->).
  cbn. intros [= <- <- <-]. cbn. split_and!; eauto; lia.
Qed.

Lemma graph_step_conduct_completes {W} {E : Env W} state w :
  services_answer →
  0 ≤ current_analyst_index state < Z.of_nat (length (analysts state)) →
  ∃ section w',
    let state' :=
      merge state
        [Set_sections (sections state ++ [section]);
         Set_current_analyst_index (current_analyst_index state + 1)] in
    graph_step N_conduct_interview state w =
    Returned ((next_node N_conduct_interview state', state'), w').
Proof.
  intros Hs Hidx.
  destruct (conduct_interview_completes state w Hs Hidx) as (section & w' & Hrun).
  exists section, w'. unfold graph_step. cbn [node_action].
  by rewrite (bind_returned _ _ _ _ _ Hrun).
Qed.

Lemma graph_step_write_report {W} {E : Env W} state w :
  services_answer →
  ∃ report w',
    graph_step N_write_report state w =
    Returned ((N_write_intro_conclusion, merge state [Set_content report]), w').
Proof.
  intros (Hllm & _ & _). unfold graph_step. cbn [node_action].
  unfold write_report, mbind, M_bind.
  match goal with
  | |- context [llm_invoke ?msgs w] =>
      destruct (Hllm msgs w) as (report & w1 & ->)
  end.
  by exists report, w1.
Qed.

Lemma graph_step_write_intro_conclusion {W} {E : Env W} state w :
  services_answer →
  ∃ intro concl w',
    graph_step N_write_intro_conclusion state w =
    Returned ((N_finalize_report,
               merge state [Set_introduction intro; Set_conclusion concl]), w').
Proof.
  intros (Hllm & _ & _). unfold graph_step. cbn [node_action].
  destruct (Hllm (intro_conclusion_request state) w) as (text & w1 & Htext).
  destruct (split_intro_conclusion_returns text) as (intro & concl & Hsplit).
  exists intro, concl, w1. unfold mbind, M_bind.
  by rewrite (write_intro_conclusion_run _ _ _ _ Htext), Hsplit.
Qed.

Lemma invoke_from_step {W} {E : Env W} fuel n st w n' st' w' :
  n ≠ END →
  graph_step n st w = Returned ((n', st'), w') →
  invoke_from (S fuel) n st w =
  match invoke_from fuel n' st' w' with
  | Returned ((ran, st''), w'') => Returned ((n :: ran, st''), w'')
  | Raised e => Raised e
  end.
Proof.
  intros Hn Hstep. destruct n; try done; cbn [invoke_from];
    rewrite (bind_returned _ _ _ _ _ Hstep); cbn beta iota;
    unfold mbind, M_bind;
    by destruct (invoke_from fuel n' st' w') as [[[ran st''] w'']|].
Qed.

Lemma invoke_from_END {W} {E : Env W} fuel st w :
  invoke_from fuel END st w = Returned (([], st), w).
Proof. by destruct fuel. Qed.

Lemma graph_step_finalize_report {W} {E : Env W} state (w : W) :
  graph_step N_finalize_report state w =
  Returned ((END,
             merge state
               [Set_final_report
                  (finalize (introduction state) (content state)
                     (conclusion state))]), w).
Proof. done. Qed.

Lemma invoke_from_raised {W} {E : Env W} fuel n st w e :
  n ≠ END →
  graph_step n st w = Raised e →
  invoke_from (S fuel) n st w = Raised e.
Proof.
  intros Hn Hstep. destruct n; try done; cbn [invoke_from];
    by rewrite (bind_raised _ _ _ _ Hstep).
Qed.

(** Once the loop is left, three more nodes run and none of them touches
    the roster, the cursor or the sections. *)
Lemma report_nodes_run {W} {E : Env W} state w fuel :
  services_answer → (3 ≤ fuel)%nat →
  ∃ state' w',
    invoke_from fuel N_write_report state w =
    Returned (([N_write_report; N_write_intro_conclusion; N_finalize_report],
               state'), w')
    ∧ analysts state' = analysts state
    ∧ current_analyst_index state' = current_analyst_index state
    ∧ sections state' = sections state.
Proof.
  intros Hs Hfuel.
  destruct fuel as [|[|[|fuel]]]; [lia..|].
  destruct (graph_step_write_report state w Hs) as (report & w1 & Hreport).
  destruct (graph_step_write_intro_conclusion
              (merge state [Set_content report]) w1 Hs)
    as (intro & concl & w2 & Hintro).
  erewrite invoke_from_step; [|done|exact Hreport].
  erewrite invoke_from_step; [|done|exact Hintro].
  erewrite invoke_from_step; [|done|apply graph_step_finalize_report].
  rewrite invoke_from_END.
  eexists _, _. split_and!; reflexivity.
Qed.

(** With [S m] analysts left, the conductor runs [S m] more times. *)
Lemma interview_loop_from {W} {E : Env W} m : ∀ state w fuel,
  services_answer →
  0 ≤ current_analyst_index state →
  Z.of_nat (length (analysts state))
  = current_analyst_index state + Z.of_nat (S m) →
  (S m + 3 ≤ fuel)%nat →
  ∃ state' w',
    invoke_from fuel N_conduct_interview state w =
    Returned ((replicate (S m) N_conduct_interview ++ report_nodes, state'), w')
    ∧ analysts state' = analysts state
    ∧ current_analyst_index state'
      = current_analyst_index state + Z.of_nat (S m)
    ∧ length (sections state') = (length (sections state) + S m)%nat.
Proof.
  induction m as [|m IH]; intros state w fuel Hs Hidx Hlen Hfuel.
  - destruct fuel as [|fuel]; [lia|].
    destruct (graph_step_conduct_completes state w Hs ltac:(lia))
      as (section & w1 & Hstep).
    cbn zeta in Hstep.
    erewrite invoke_from_step; [|done|exact Hstep].
    cbn [next_node merge foldl assign current_analyst_index analysts].
    replace (_ <? _) with false by lia.
    match goal with
    | |- context [invoke_from fuel N_write_report ?st w1] =>
        destruct (report_nodes_run st w1 fuel Hs ltac:(lia))
          as (state' & w' & -> & Ha & Hi & Hsec)
    end.
    exists state', w'. split_and!; [done|done|by rewrite Hi|].
    rewrite Hsec. cbn. rewrite length_app. simpl. lia.
  - destruct fuel as [|fuel]; [lia|].
    destruct (graph_step_conduct_completes state w Hs ltac:(lia))
      as (section & w1 & Hstep).
    cbn zeta in Hstep.
    erewrite invoke_from_step; [|done|exact Hstep].
    cbn [next_node merge foldl assign current_analyst_index analysts].
    replace (_ <? _) with true by lia.
    match goal with
    | |- context [invoke_from fuel N_conduct_interview ?st w1] =>
        destruct (IH st w1 fuel Hs) as (state' & w' & -> & Ha & Hi & Hsec);
          [cbn; lia..|]
    end.
    exists state', w'. split_and!; [done|done|cbn in Hi; lia|].
    rewrite Hsec. cbn. rewrite length_app. simpl. lia.
Qed.

(** C4, as amended. For a roster of N ≥ 1 analysts, a cursor at 0 and no
    section yet, services that answer and enough steps, the graph entered
    at the conductor runs it exactly N times, then the three report nodes,
    and stops: the cursor ends at N and there are N sections. After each
    run of the conductor the edge goes back to it when the cursor is below
    the length of the roster, and on to report synthesis otherwise. *)
Theorem interview_loop_runs_once_per_analyst {W} {E : Env W} state w fuel N :
  services_answer →
  length (analysts state) = N →
  (1 ≤ N)%nat →
  current_analyst_index state = 0 →
  sections state = [] →
  (N + 3 ≤ fuel)%nat →
  (∃ state' w',
     invoke_from fuel N_conduct_interview state w =
     Returned ((replicate N N_conduct_interview ++ report_nodes, state'), w')
     ∧ analysts state' = analysts state
     ∧ current_analyst_index state' = Z.of_nat N
     ∧ length (sections state') = N)
  ∧ ∀ x, next_node N_conduct_interview x =
         if current_analyst_index x <? Z.of_nat (length (analysts x))
         then N_conduct_interview else N_write_report.
Proof.
  intros Hs HN Hpos Hidx Hsec Hfuel. split; [|done].
  destruct N as [|m]; [lia|].
  destruct (interview_loop_from m state w fuel Hs) as (state' & w' & H);
    [lia..|].
  exists state', w'. rewrite Hidx, Hsec in H. apply H.
Qed.

Lemma mixed_docs_text_fields : Forall text_fields mixed_docs.
Proof.
  repeat first [apply Forall_nil | apply Forall_cons];
    try exact I; split; intros v Hv; vm_compute in Hv;
    try discriminate; injection Hv as <-; by eexists.
Qed.

Lemma interview_world_answers : services_answer (E := interview_world).
Proof.
  split_and!; intros; eexists _, _; try split; try reflexivity.
  apply mixed_docs_text_fields.
Qed.

(** Two analysts: the conductor runs twice, the cursor ends at 2 and there
    are 2 sections. *)
Lemma two_analysts_two_interviews :
  ∃ state' w',
    invoke_from (E := interview_world) 25 N_conduct_interview
      two_analysts_state ()
    = Returned (([N_conduct_interview; N_conduct_interview; N_write_report;
                  N_write_intro_conclusion; N_finalize_report], state'), w')
    ∧ analysts state' = two_analysts
    ∧ current_analyst_index state' = 2
    ∧ length (sections state') = 2%nat.
Proof.
  refine (proj1 (interview_loop_runs_once_per_analyst (E := interview_world)
                   two_analysts_state () 25 2 _ _ _ _ _ _)).
  - apply interview_world_answers.
  - reflexivity.
  - lia.
  - reflexivity.
  - reflexivity.
  - lia.
Defined.

(** C4, as stated, fails for N = 0. On the response [{"analysts": []}] the
    roster is empty; the edge out of [create_analysts] is unconditional, the
    conductor is entered, [analysts[0]] is an [IndexError] and the run
    aborts: it neither skips the loop nor reaches report synthesis. *)
Lemma empty_roster_aborts_the_run :
  graph_invoke (E := empty_roster_world) 25 (lit "quantum computing") ()
  = Raised IndexError
  ∧ length (analysts empty_roster_state) = 0%nat
  ∧ invoke_from (E := empty_roster_world) 25 N_conduct_interview
      empty_roster_state ()
    = Raised IndexError.
Proof. split_and!; vm_compute; reflexivity. Qed.

(** ** Invariants of a run *)

Lemma reachable_invariant {W} {E : Env W} t n state w :
  reachable t n state w → run_invariant n state.
Proof.
  induction 1 as [w|n st w n' st' w' _ IH Hn Hstep].
  - unfold run_invariant, after_loop. cbn.
    split_and!; try done; try lia; try (intros [?|[?|[?|?]]]; done).
  - destruct IH as (Hidx & Hsec & Hinit & Hafter).
    destruct n; try done.
    + (* create_analysts *)
      specialize (Hinit eq_refl).
      unfold graph_step in Hstep. cbn [node_action] in Hstep.
      unfold mbind, M_bind in Hstep.
      destruct (create_analysts _ w) as [[upd w1]|] eqn:Hrun; [|done].
      apply create_analysts_bounded in Hrun as (roster & -> & _).
      injection Hstep as <- <- <-.
      unfold run_invariant, after_loop. cbn. rewrite Hinit.
      split_and!; try done; try lia; try (intros [?|[?|[?|?]]]; done).
    + (* conduct_interview *)
      apply graph_step_conduct in Hstep
        as ([section Hsections] & Hcursor & Hroster & -> & Hrange).
      unfold run_invariant. rewrite Hsections, Hcursor, Hroster, length_app.
      split_and!; simpl length; try lia.
      * by destruct (_ <? _).
      * destruct (_ <? _) eqn:Hlt; unfold after_loop; [|lia].
        intros [?|[?|[?|?]]]; done.
    + (* write_report *)
      unfold graph_step in Hstep. cbn [node_action] in Hstep.
      unfold write_report, mbind, M_bind in Hstep.
      destruct (llm_invoke _ w) as [[report w1]|]; [|done].
      injection Hstep as <- <- <-.
      unfold run_invariant, after_loop in *. cbn.
      split_and!; try done; try lia; intros _; apply Hafter; auto 6.
    + (* write_intro_conclusion *)
      unfold graph_step in Hstep. cbn [node_action] in Hstep.
      unfold write_intro_conclusion, mbind, M_bind in Hstep.
      destruct (llm_invoke _ w) as [[text w1]|]; [|done].
      destruct (split_intro_conclusion text) as [[intro concl]|]; [|done].
      injection Hstep as <- <- <-.
      unfold run_invariant, after_loop in *. cbn.
      split_and!; try done; try lia; intros _; apply Hafter; auto 6.
    + (* finalize_report *)
      injection Hstep as <- <- <-.
      unfold run_invariant, after_loop in *. cbn.
      split_and!; try done; try lia; intros _; apply Hafter; auto 6.
Qed.

(** C5, as amended. At every point of every run the cursor is between 0
    and the length of the roster and equals the number of sections; so it
    is at the start of each run of the conductor and after it. A run of the
    conductor that completes appends one section and adds 1 to the cursor,
    and after it the loop is left exactly when the cursor equals the length
    of the roster, and goes on exactly when it is below; past the loop the
    cursor equals that length. (The first run of the conductor is
    unconditional.) *)
Theorem run_keeps_cursor_and_sections_in_step {W} {E : Env W} t n state w :
  reachable t n state w →
  0 ≤ current_analyst_index state ≤ Z.of_nat (length (analysts state))
  ∧ Z.of_nat (length (sections state)) = current_analyst_index state
  ∧ (after_loop n →
     current_analyst_index state = Z.of_nat (length (analysts state)))
  ∧ ∀ n' state' w',
      n = N_conduct_interview →
      graph_step n state w = Returned ((n', state'), w') →
      (∃ section, sections state' = sections state ++ [section])
      ∧ current_analyst_index state' = current_analyst_index state + 1
      ∧ analysts state' = analysts state
      ∧ Z.of_nat (length (sections state')) = current_analyst_index state'
      ∧ 0 ≤ current_analyst_index state' ≤ Z.of_nat (length (analysts state'))
      ∧ (n' = N_write_report ↔
         current_analyst_index state' = Z.of_nat (length (analysts state')))
      ∧ (n' = N_conduct_interview ↔
         current_analyst_index state' < Z.of_nat (length (analysts state'))).
Proof.
  intros Hreach.
  destruct (reachable_invariant _ _ _ _ Hreach) as (Hidx & Hsec & _ & Hafter).
  split_and!; [lia..|done|done|].
  intros n' state' w' -> Hstep.
  assert (Hnext : reachable t n' state' w')
    by (by eapply reach_step; [exact Hreach| |exact Hstep]).
  apply reachable_invariant in Hnext as (Hidx' & Hsec' & _ & _).
  apply graph_step_conduct in Hstep
    as (Hsections & Hcursor & Hroster & Hn' & _).
  split_and!; try done; try lia.
  - rewrite Hn'. destruct (_ <? _) eqn:Hlt; split; try done; lia.
  - rewrite Hn'. destruct (_ <? _) eqn:Hlt; split; try done; lia.
Qed.

(** With the default roster, at the entry of the loop: cursor 0 of 3, no
    section. *)
Lemma default_roster_run_is_in_step :
  0 ≤ current_analyst_index default_roster_state ≤ 3
  ∧ Z.of_nat (length (sections default_roster_state))
    = current_analyst_index default_roster_state.
Proof.
  destruct (run_keeps_cursor_and_sections_in_step (E := interview_world)
              (lit "quantum computing") N_conduct_interview
              default_roster_state ())
    as (Hidx & Hsec & _).
  - eapply reach_step; [apply reach_start|discriminate|].
    vm_compute. reflexivity.
  - split; [exact Hidx|exact Hsec].
Defined.

(** C5, as stated, fails on the run that gets the response
    [{"analysts": []}]: at the entry of the loop the cursor equals the
    length of the roster, 0, and yet the loop is not over: the conductor is
    the node to run, and it raises [IndexError]. *)
Lemma empty_roster_loop_is_not_terminal :
  reachable (E := empty_roster_world) (lit "quantum computing")
    N_conduct_interview empty_roster_state ()
  ∧ current_analyst_index empty_roster_state
    = Z.of_nat (length (analysts empty_roster_state))
  ∧ graph_step (E := empty_roster_world) N_conduct_interview
      empty_roster_state ()
    = Raised IndexError.
Proof.
  split_and!.
  - eapply reach_step; [apply reach_start|discriminate|].
    vm_compute. reflexivity.
  - reflexivity.
  - vm_compute. reflexivity.
Qed.

(** * Further properties *)

(** ** More on strings *)

Lemma str_join_cons sep a l :
  l ≠ [] → str_join sep (a :: l) = a ++ sep ++ str_join sep l.
Proof. by destruct l. Qed.

Lemma str_join_split_parts sep s :
  sep ≠ [] → str_join sep (split_parts sep s) = s.
Proof.
  intros Hsep. remember (length s) as n eqn:Hn.
  revert s Hn. induction (lt_wf n) as [n _ IH]. intros s ->.
  rewrite split_parts_eq.
  destruct (str_find sep s) as [i|] eqn:Hi; [|done].
  rewrite decide_False by done.
  rewrite str_join_cons by apply split_parts_nonempty.
  pose proof (str_find_bound _ _ _ Hi) as Hb.
  assert (0 < length sep)%nat by (destruct sep; [done|simpl; lia]).
  rewrite (IH (length (drop (i + length sep) s))); [|rewrite length_drop; lia|done].
  symmetry. by apply str_find_Some.
Qed.

Lemma split_parts_free sep s :
  sep ≠ [] → Forall (λ part, ¬ occurs sep part) (split_parts sep s).
Proof.
  intros Hsep. remember (length s) as n eqn:Hn.
  revert s Hn. induction (lt_wf n) as [n _ IH]. intros s ->.
  rewrite split_parts_eq.
  destruct (str_find sep s) as [i|] eqn:Hi.
  - rewrite decide_False by done.
    pose proof (str_find_bound _ _ _ Hi) as Hb.
    assert (0 < length sep)%nat by (destruct sep; [done|simpl; lia]).
    constructor.
    + intros (u & v & Huv).
      assert (Hlen : length (take i s) = i) by (rewrite length_take; lia).
      rewrite Huv, !length_app in Hlen.
      assert (Hs : s = u ++ sep ++ (v ++ drop i s)).
      { rewrite <- (take_drop i s) at 1. rewrite Huv.
        by rewrite <- !app_assoc. }
      pose proof (str_find_leftmost _ _ _ _ _ Hi Hs). lia.
    + apply (IH (length (drop (i + length sep) s))); [|done].
      rewrite length_drop. lia.
  - constructor; [|constructor]. by apply str_find_None.
Qed.

Lemma split_parts_occurs sep s :
  sep ≠ [] → occurs sep s → (2 ≤ length (split_parts sep s))%nat.
Proof.
  intros Hsep Hocc. rewrite split_parts_eq.
  destruct (str_find sep s) as [i|] eqn:Hi.
  - rewrite decide_False by done. simpl.
    pose proof (split_parts_nonempty sep (drop (i + length sep) s)).
    destruct (split_parts sep (drop (i + length sep) s)); [done|simpl; lia].
  - by apply str_find_None in Hi.
Qed.

Lemma split_parts_two_occurrences sep a b c :
  sep ≠ [] →
  (3 ≤ length (split_parts sep (a ++ sep ++ b ++ sep ++ c)))%nat.
Proof.
  intros Hsep. rewrite split_parts_eq.
  destruct (str_find sep _) as [i|] eqn:Hi.
  - rewrite decide_False by done.
    pose proof (str_find_leftmost _ _ _ _ _ Hi eq_refl) as Hle.
    cbn [length].
    enough (2 ≤ length (split_parts sep
                          (drop (i + length sep) (a ++ sep ++ b ++ sep ++ c))))%nat
      by lia.
    apply split_parts_occurs; [done|].
    exists (drop (i + length sep) (a ++ sep) ++ b), c.
    rewrite (app_assoc a sep), drop_app_le by (rewrite length_app; lia).
    by rewrite <- !app_assoc.
  - apply str_find_None in Hi. destruct Hi. by eexists _, _.
Qed.

Lemma str_lstrip_id s :
  (∀ c, hd_error s = Some c → py_isspace c = false) → str_lstrip s = s.
Proof. destruct s as [|c s]; [done|]. intros H. simpl. by rewrite (H c). Qed.

Lemma trimmed_strip s : trimmed s → str_strip s = s.
Proof.
  intros [Hh Hl]. unfold str_strip, str_rstrip.
  rewrite (str_lstrip_id s Hh), (str_lstrip_id (reverse s) Hl).
  apply reverse_involutive.
Qed.

Lemma str_strip_length s : (length (str_strip s) ≤ length s)%nat.
Proof.
  destruct (str_strip_spec s) as (a & b & Hs & _).
  rewrite Hs at 2. rewrite !length_app. lia.
Qed.

Lemma str_strip_occurs sub s : occurs sub (str_strip s) → occurs sub s.
Proof.
  destruct (str_strip_spec s) as (a & b & Hs & _).
  intros (u & v & Huv). exists (a ++ u), (v ++ b).
  rewrite Hs at 1. rewrite Huv. by rewrite <- !app_assoc.
Qed.

Lemma replace_parts_shrinks old s :
  (length (replace_parts old [] s) ≤ length s)%nat.
Proof.
  remember (length s) as n eqn:Hn.
  revert s Hn. induction (lt_wf n) as [n _ IH]. intros s ->.
  rewrite replace_parts_eq.
  destruct (str_find old s) as [i|] eqn:Hi; [|done].
  case_decide as Hold; [done|].
  pose proof (str_find_bound _ _ _ Hi) as Hb.
  assert (0 < length old)%nat by (destruct old; [done|simpl; lia]).
  rewrite !length_app, length_take. cbn [length].
  pose proof (IH (length (drop (i + length old) s))
                ltac:(rewrite length_drop; lia) _ eq_refl) as IH'.
  rewrite length_drop in IH'. lia.
Qed.

(** X1. Splitting on a non-empty separator loses nothing: there is at
    least one part, no part contains the separator, and the parts joined by
    the separator give the string back. *)
Theorem split_then_join_is_identity sep s :
  sep ≠ [] →
  ∃ parts,
    str_split sep s = Returned parts
    ∧ parts ≠ []
    ∧ Forall (λ part, ¬ occurs sep part) parts
    ∧ str_join sep parts = s.
Proof.
  intros Hsep. exists (split_parts sep s). unfold str_split.
  rewrite decide_False by done.
  auto using split_parts_nonempty, split_parts_free, str_join_split_parts.
Qed.

Lemma relabeled_response_splits_and_joins :
  ∃ parts,
    str_split (lit "Conclusion:") relabeled_response = Returned parts
    ∧ parts ≠ []
    ∧ Forall (λ part, ¬ occurs (lit "Conclusion:") part) parts
    ∧ str_join (lit "Conclusion:") parts = relabeled_response.
Proof.
  apply (split_then_join_is_identity (lit "Conclusion:") relabeled_response).
  discriminate.
Defined.

(** X2. A response with exactly one "Conclusion:" takes the labeled branch:
    the introduction comes from what precedes the label and the conclusion
    is what follows it, trimmed; the conclusion never contains the label. *)
Theorem one_label_takes_labeled_branch {W} {E : Env W} state w text w'
    before after :
  llm_invoke (intro_conclusion_request state) w = Returned (text, w') →
  text = before ++ lit "Conclusion:" ++ after →
  ¬ occurs (lit "Conclusion:") before →
  ¬ occurs (lit "Conclusion:") after →
  write_intro_conclusion state w =
  Returned ([Set_introduction
               (str_strip (str_replace (lit "Introduction:") [] before));
             Set_conclusion (str_strip after)], w')
  ∧ ¬ occurs (lit "Conclusion:") (str_strip after).
Proof.
  intros Hllm -> Hb Ha. split.
  - rewrite (write_intro_conclusion_run _ _ _ _ Hllm).
    by rewrite (split_intro_conclusion_labeled _ before after)
      by by apply one_label_two_parts.
  - by intros Hocc%str_strip_occurs.
Qed.

Lemma labeled_response_has_one_label :
  write_intro_conclusion
    (E := scripted labeled_response (Raised JSONDecodeError) [] [])
    (initial_state (lit "tides")) ()
  = Returned ([Set_introduction (lit "A"); Set_conclusion (lit "B")], ()).
Proof.
  refine (proj1 (one_label_takes_labeled_branch
            (E := scripted labeled_response (Raised JSONDecodeError) [] [])
            (initial_state (lit "tides")) () labeled_response ()
            (lit "Introduction:" ++ nl ++ lit "A" ++ nl) (nl ++ lit "B")
            _ _ _ _)).
  - reflexivity.
  - reflexivity.
  - apply str_find_None. vm_compute. reflexivity.
  - apply str_find_None. vm_compute. reflexivity.
Defined.

(** X3. A response with two or more "Conclusion:" labels does not take the
    labeled branch: it is cut at [len // 2] like a response without any
    label, whatever stands around the labels. *)
Theorem repeated_label_falls_back_to_midpoint {W} {E : Env W} state w text w'
    a b c :
  llm_invoke (intro_conclusion_request state) w = Returned (text, w') →
  text = a ++ lit "Conclusion:" ++ b ++ lit "Conclusion:" ++ c →
  write_intro_conclusion state w =
  Returned ([Set_introduction (str_strip (take (length text / 2)%nat text));
             Set_conclusion (str_strip (drop (length text / 2)%nat text))],
            w').
Proof.
  intros Hllm Htext.
  rewrite (write_intro_conclusion_run _ _ _ _ Hllm).
  rewrite split_intro_conclusion_fallback; [done|].
  right. exists (split_parts (lit "Conclusion:") text). split.
  - unfold str_split. by rewrite decide_False by apply conclusion_label_nonempty.
  - pose proof (split_parts_two_occurrences (lit "Conclusion:") a b c
                  conclusion_label_nonempty) as Hlen.
    rewrite <- Htext in Hlen. lia.
Qed.

(** X4. Whatever the completion service answers, the writer does not raise:
    it returns an introduction and a conclusion that [strip] leaves
    unchanged and that are no longer than the response. *)
Theorem writer_always_returns_trimmed_texts {W} {E : Env W} state w text w' :
  llm_invoke (intro_conclusion_request state) w = Returned (text, w') →
  ∃ intro concl,
    write_intro_conclusion state w =
    Returned ([Set_introduction intro; Set_conclusion concl], w')
    ∧ str_strip intro = intro ∧ str_strip concl = concl
    ∧ (length intro ≤ length text)%nat ∧ (length concl ≤ length text)%nat.
Proof.
  intros Hllm. rewrite (write_intro_conclusion_run _ _ _ _ Hllm).
  unfold split_intro_conclusion, str_split.
  rewrite decide_False by apply conclusion_label_nonempty.
  cbn [mbind outcome_bind].
  assert (Hfix : ∀ s, str_strip (str_strip s) = str_strip s).
  { intros s. apply trimmed_strip.
    by destruct (str_strip_spec s) as (? & ? & _ & _ & _ & ?). }
  assert (Hmid : ∃ intro concl,
    Returned ([Set_introduction (str_strip (take (length text / 2)%nat text));
               Set_conclusion (str_strip (drop (length text / 2)%nat text))], w')
    = Returned ([Set_introduction intro; Set_conclusion concl], w')
    ∧ str_strip intro = intro ∧ str_strip concl = concl
    ∧ (length intro ≤ length text)%nat ∧ (length concl ≤ length text)%nat).
  { eexists _, _. split_and!; [done|apply Hfix..| |].
    - etrans; [apply str_strip_length|]. rewrite length_take. lia.
    - etrans; [apply str_strip_length|]. rewrite length_drop. lia. }
  destruct (split_parts _ text) as [|part0 [|part1 [|? ?]]] eqn:Hparts;
    try exact Hmid.
  apply split_parts_two in Hparts as [-> _].
  eexists _, _. split_and!; [done|apply Hfix..| |].
  - etrans; [apply str_strip_length|].
    rewrite str_replace_nonempty by apply introduction_label_nonempty.
    etrans; [apply replace_parts_shrinks|]. rewrite !length_app. lia.
  - etrans; [apply str_strip_length|]. rewrite !length_app. lia.
Qed.

Lemma twice_labeled_response_is_cut_in_the_middle :
  write_intro_conclusion
    (E := scripted twice_labeled_response (Raised JSONDecodeError) [] [])
    (initial_state (lit "tides")) ()
  = Returned ([Set_introduction (lit "x Conclusion:");
               Set_conclusion (lit "y Conclusion: z")], ()).
Proof.
  rewrite (repeated_label_falls_back_to_midpoint
             (E := scripted twice_labeled_response (Raised JSONDecodeError) [] [])
             (initial_state (lit "tides")) () twice_labeled_response ()
             (lit "x ") (lit " y ") (lit " z") eq_refl eq_refl).
  vm_compute. reflexivity.
Defined.

Lemma twice_labeled_response_gives_trimmed_texts :
  ∃ intro concl,
    write_intro_conclusion
      (E := scripted twice_labeled_response (Raised JSONDecodeError) [] [])
      (initial_state (lit "tides")) ()
    = Returned ([Set_introduction intro; Set_conclusion concl], ())
    ∧ str_strip intro = intro ∧ str_strip concl = concl
    ∧ (length intro ≤ length twice_labeled_response)%nat
    ∧ (length concl ≤ length twice_labeled_response)%nat.
Proof.
  apply (writer_always_returns_trimmed_texts
           (E := scripted twice_labeled_response (Raised JSONDecodeError) [] [])
           (initial_state (lit "tides")) () twice_labeled_response ()).
  reflexivity.
Defined.

(** ** More on the persona generator *)

Lemma mapM_valid {W} {E : Env W} items :
  Forall (λ v, ∃ a, Analyst_of v = Returned a) items →
  ∃ roster, mapM Analyst_of items = Returned roster.
Proof.
  induction 1 as [|v items [a Ha] _ [k Hk]]; [by exists []|].
  exists (a :: k). simpl. rewrite Ha. simpl. by rewrite Hk.
Qed.

(** X5. A roster of at most three valid records is returned as it is, in
    the order of the response: it is neither padded nor replaced by the
    fallback roster; in general the roster has [min(3, n)] entries when the
    first three of the [n] records are valid. *)
Theorem short_roster_is_kept_as_is {W} {E : Env W} state w text w' d l :
  llm_invoke (analysts_request state) w = Returned (text, w') →
  json_loads text = Returned (PyDict d) →
  d !! lit "analysts" = Some (PyList l) →
  Forall (λ v, ∃ a, Analyst_of v = Returned a) (take 3 l) →
  ∃ roster,
    create_analysts state w =
    Returned ([Set_analysts roster; Set_current_analyst_index 0], w')
    ∧ Forall2 (λ v a, Analyst_of v = Returned a) (take 3 l) roster
    ∧ length roster = (length l `min` 3)%nat.
Proof.
  intros Hllm Hjson Hkey Hvalid.
  destruct (mapM_valid _ Hvalid) as [roster Hroster].
  exists roster. split_and!.
  - rewrite (create_analysts_run _ _ _ _ Hllm).
    unfold analysts_or_default, parse_analysts. rewrite Hjson. simpl.
    rewrite Hkey. simpl. by rewrite Hroster.
  - by apply mapM_returned.
  - apply mapM_returned, Forall2_length in Hroster.
    rewrite length_take in Hroster. lia.
Qed.

Lemma single_record_gives_single_analyst :
  ∃ roster,
    create_analysts
      (E := scripted one_record_text (Returned one_record_json) [] [])
      (initial_state (lit "tides")) ()
    = Returned ([Set_analysts roster; Set_current_analyst_index 0], ())
    ∧ Forall2 (λ v a, Analyst_of
                        (E := scripted one_record_text
                                (Returned one_record_json) [] []) v
                      = Returned a)
        [record "Ada" "Physicist" "Lab"] roster
    ∧ length roster = 1%nat.
Proof.
  apply (short_roster_is_kept_as_is
           (E := scripted one_record_text (Returned one_record_json) [] [])
           (initial_state (lit "tides")) () one_record_text ()
           {[ lit "analysts" := PyList [record "Ada" "Physicist" "Lab"] ]}
           [record "Ada" "Physicist" "Lab"]).
  - reflexivity.
  - vm_compute. reflexivity.
  - vm_compute. reflexivity.
  - repeat constructor. eexists. vm_compute. reflexivity.
Defined.

(** X6. Once the completion service has answered, the generator never
    raises one of the exceptions its handler lists ([JSONDecodeError],
    [KeyError], [ValueError] and its subclass [ValidationError]): what it
    raises escaped the handler, and is what parsing raised. *)
Theorem generator_raises_only_uncaught_errors {W} {E : Env W} state w text w' e :
  llm_invoke (analysts_request state) w = Returned (text, w') →
  create_analysts state w = Raised e →
  parse_analysts text = Raised e
  ∧ e ≠ JSONDecodeError ∧ e ≠ KeyError ∧ e ≠ ValueError
  ∧ e ≠ ValidationError.
Proof.
  intros Hllm. rewrite (create_analysts_run _ _ _ _ Hllm).
  unfold analysts_or_default.
  destruct (parse_analysts text) as [roster|e']; [done|].
  destruct (parse_error_caught e') eqn:He; [done|].
  intros [= ->]. split_and!; [done|..]; by intros ->.
Qed.

Lemma array_response_raises_uncaught_error :
  parse_analysts (E := scripted array_text (Returned array_json) [] [])
    array_text = Raised TypeError
  ∧ TypeError ≠ JSONDecodeError ∧ TypeError ≠ KeyError
  ∧ TypeError ≠ ValueError ∧ TypeError ≠ ValidationError.
Proof.
  apply (generator_raises_only_uncaught_errors
           (E := scripted array_text (Returned array_json) [] [])
           (initial_state (lit "tides")) () array_text () TypeError).
  - reflexivity.
  - vm_compute. reflexivity.
Defined.

(** X7. The completion call for the roster is made outside the [try]: when
    it fails, the generator raises the same exception and the run aborts
    with it, also when the exception is one the handler lists; there is no
    fallback roster then. *)
Theorem roster_request_failure_aborts_the_run {W} {E : Env W} t w e fuel :
  llm_invoke (analysts_request (initial_state t)) w = Raised e →
  create_analysts (initial_state t) w = Raised e
  ∧ graph_invoke (S fuel) t w = Raised e.
Proof.
  intros Hllm.
  assert (Hrun : create_analysts (initial_state t) w = Raised e)
    by (unfold create_analysts; by rewrite (bind_raised _ _ _ _ Hllm)).
  split; [done|]. unfold graph_invoke.
  apply invoke_from_raised; [done|].
  unfold graph_step. cbn [node_action]. by rewrite (bind_raised _ _ _ _ Hrun).
Qed.

Lemma value_error_of_the_service_is_not_recovered :
  create_analysts (E := service_down ValueError) (initial_state (lit "tides")) ()
  = Raised ValueError
  ∧ graph_invoke (E := service_down ValueError) 25 (lit "tides") ()
    = Raised ValueError.
Proof.
  apply (roster_request_failure_aborts_the_run (E := service_down ValueError)
           (lit "tides") () ValueError 24).
  reflexivity.
Defined.

(** X8. Keys other than [name], [role] and [affiliation] in a record of
    the response are ignored: adding one changes neither whether the record
    is valid nor the analyst it gives. *)
Theorem other_keys_of_a_record_are_ignored {W} {E : Env W} d k v :
  k ≠ lit "name" → k ≠ lit "role" → k ≠ lit "affiliation" →
  Analyst_of (PyDict (<[k := v]> d)) = Analyst_of (PyDict d).
Proof.
  intros Hn Hr Ha. unfold Analyst_of.
  by rewrite !lookup_insert_ne by done.
Qed.

Lemma record_with_a_bio_is_the_same_analyst :
  Analyst_of (E := scripted [] (Raised JSONDecodeError) [] [])
    (PyDict (<[lit "bio" := PyInt 7]>
               {[ lit "name" := PyStr (lit "Ada");
                  lit "role" := PyStr (lit "Physicist");
                  lit "affiliation" := PyStr (lit "Lab") ]}))
  = Analyst_of (E := scripted [] (Raised JSONDecodeError) [] [])
      (record "Ada" "Physicist" "Lab").
Proof.
  apply (other_keys_of_a_record_are_ignored
           (E := scripted [] (Raised JSONDecodeError) [] [])); discriminate.
Defined.

(** ** More on the interview conductor *)

Lemma list_getitem_out_of_range {A} (l : list A) i :
  ¬ (- Z.of_nat (length l) ≤ i < Z.of_nat (length l)) →
  list_getitem l i = Raised IndexError.
Proof.
  intros Hi. unfold list_getitem.
  destruct (i <? 0) eqn:Hneg.
  - replace ((0 <=? i + Z.of_nat (length l))
             && (i + Z.of_nat (length l) <? Z.of_nat (length l)))
      with false by lia. done.
  - replace ((0 <=? i) && (i <? Z.of_nat (length l))) with false by lia. done.
Qed.

Lemma conduct_interview_out_of_range {W} {E : Env W} state w :
  ¬ (- Z.of_nat (length (analysts state)) ≤ current_analyst_index state
     < Z.of_nat (length (analysts state))) →
  conduct_interview state w = Raised IndexError.
Proof.
  intros Hidx. unfold conduct_interview.
  by rewrite list_getitem_out_of_range.
Qed.

(** X9. When the cursor is outside the roster (not in [-len, len)), the
    conductor raises [IndexError] at once, whatever the services would have
    answered; with an empty roster this is so for every cursor. *)
Theorem conductor_outside_roster_raises_IndexError {W} {E : Env W} state w :
  ¬ (- Z.of_nat (length (analysts state)) ≤ current_analyst_index state
     < Z.of_nat (length (analysts state))) →
  conduct_interview state w = Raised IndexError.
Proof. apply conduct_interview_out_of_range. Qed.

Lemma conductor_past_the_last_analyst_raises :
  conduct_interview (E := interview_world)
    (merge two_analysts_state [Set_current_analyst_index 2]) ()
  = Raised IndexError.
Proof.
  apply (conductor_outside_roster_raises_IndexError (E := interview_world)).
  vm_compute. intros [_ H]. discriminate.
Defined.

Lemma as_strs_returned l texts :
  as_strs l = Returned texts ↔ l = PyStr <$> texts.
Proof.
  revert texts. induction l as [|v l IH]; intros texts; simpl.
  - split; [by intros [= <-]|]. by destruct texts.
  - destruct v; try (split; [done|by destruct texts]).
    destruct (as_strs l) as [k|e] eqn:Hl; simpl.
    + split.
      * intros [= <-]. cbn. f_equal. by apply IH.
      * destruct texts as [|s' texts]; [done|]. intros [= -> Hl'].
        apply IH in Hl'. congruence.
    + split; [done|]. destruct texts as [|s' texts]; [done|].
      intros [= -> Hl']. by apply IH in Hl'.
Qed.

Lemma as_strs_raised l e : as_strs l = Raised e → e = TypeError.
Proof.
  induction l as [|v l IH]; simpl; [done|].
  destruct v; try by intros [= <-].
  destruct (as_strs l); simpl; [done|]. intros [= <-]. by apply IH.
Qed.

(** X10. Building the context succeeds exactly when every item kept from
    the search results is text: then the context is these texts and the
    encyclopedia pages joined by line feeds; otherwise (a record whose
    [content] or [snippet] is, say, a number) joining raises [TypeError],
    and nothing else is ever raised. *)
Theorem context_is_built_iff_items_are_text search_docs wiki_docs :
  (∀ texts,
     search_contents search_docs = PyStr <$> texts →
     interview_context search_docs wiki_docs
     = Returned (str_join nl (texts ++ wiki_docs)))
  ∧ ((¬ ∃ texts, search_contents search_docs = PyStr <$> texts) →
     interview_context search_docs wiki_docs = Raised TypeError)
  ∧ (∀ context,
       interview_context search_docs wiki_docs = Returned context →
       ∃ texts, search_contents search_docs = PyStr <$> texts).
Proof.
  unfold interview_context, py_join. split_and!.
  - intros texts ->. by rewrite <- fmap_app, as_strs_texts.
  - intros Hno.
    destruct (as_strs (search_contents search_docs ++ (PyStr <$> wiki_docs)))
      as [texts|e] eqn:Hall.
    + destruct Hno. apply as_strs_returned in Hall.
      exists (take (length (search_contents search_docs)) texts).
      apply (f_equal (take (length (search_contents search_docs)))) in Hall.
      by rewrite take_app_length, <- fmap_take in Hall.
    + by rewrite (as_strs_raised _ _ Hall).
  - intros context Hc.
    destruct (as_strs (search_contents search_docs ++ (PyStr <$> wiki_docs)))
      as [texts|e] eqn:Hall; [|done].
    apply as_strs_returned in Hall.
    exists (take (length (search_contents search_docs)) texts).
    apply (f_equal (take (length (search_contents search_docs)))) in Hall.
    by rewrite take_app_length, <- fmap_take in Hall.
Qed.

Lemma numeric_content_breaks_the_context :
  interview_context numeric_docs [lit "omega"] = Raised TypeError.
Proof.
  apply (proj1 (proj2 (context_is_built_iff_items_are_text numeric_docs
                         [lit "omega"]))).
  intros [texts Htexts]. vm_compute in Htexts.
  destruct texts; discriminate.
Defined.

(** X11. Normalization yields at most one item per search result, and
    exactly one per result when every result is a record or a string. *)
Theorem one_item_per_search_result search_docs :
  (length (search_contents search_docs) ≤ length search_docs)%nat
  ∧ (Forall (λ doc, is_dict doc ∨ text_value doc) search_docs →
     length (search_contents search_docs) = length search_docs).
Proof.
  unfold search_contents. split.
  - induction search_docs as [|doc docs IH]; [done|].
    cbn [fmap list_fmap concat]. rewrite length_app. cbn [length].
    destruct doc; simpl; lia.
  - induction 1 as [|doc docs Hdoc _ IH]; [done|].
    cbn [fmap list_fmap concat]. rewrite length_app. cbn [length].
    destruct Hdoc as [[d ->]|[s ->]]; simpl; lia.
Qed.

Lemma mixed_docs_give_one_item_each :
  length (search_contents mixed_docs) = length mixed_docs.
Proof.
  apply (proj2 (one_item_per_search_result mixed_docs)).
  repeat first [apply Forall_nil | apply Forall_cons];
    first [left; by eexists | right; by eexists].
Defined.

(** ** More on the graph *)

Lemma graph_step_inv {W} {E : Env W} n st w n' st' w' :
  graph_step n st w = Returned ((n', st'), w') →
  ∃ upd, node_action n st w = Returned (upd, w')
         ∧ st' = merge st upd ∧ n' = next_node n st'.
Proof.
  unfold graph_step, mbind, M_bind.
  destruct (node_action n st w) as [[upd w1]|]; [|done].
  cbn. intros [= <- <- <-]. by exists upd.
Qed.

(** What each node writes. *)
Lemma node_action_writes {W} {E : Env W} n st w upd w' :
  node_action n st w = Returned (upd, w') →
  match n with
  | N_create_analysts =>
      ∃ roster, upd = [Set_analysts roster; Set_current_analyst_index 0]
                ∧ (length roster ≤ 3)%nat
  | N_conduct_interview =>
      ∃ section,
        upd = [Set_sections (sections st ++ [section]);
               Set_current_analyst_index (current_analyst_index st + 1)]
        ∧ - Z.of_nat (length (analysts st)) ≤ current_analyst_index st
          < Z.of_nat (length (analysts st))
  | N_write_report => ∃ report, upd = [Set_content report]
  | N_write_intro_conclusion =>
      ∃ intro concl, upd = [Set_introduction intro; Set_conclusion concl]
  | N_finalize_report =>
      upd = [Set_final_report
               (finalize (introduction st) (content st) (conclusion st))]
  | END => upd = []
  end.
Proof.
  destruct n; cbn [node_action].
  - apply create_analysts_bounded.
  - intros (analyst & section & Hidx%list_getitem_returned & ->)
      %conduct_interview_returned. eauto.
  - unfold write_report, mbind, M_bind.
    destruct (llm_invoke _ w) as [[report w1]|]; [|done].
    intros [= <- <-]. eauto.
  - unfold write_intro_conclusion, mbind, M_bind.
    destruct (llm_invoke _ w) as [[text w1]|]; [|done].
    destruct (split_intro_conclusion text) as [[intro concl]|]; [|done].
    intros [= <- <-]. eauto.
  - by intros [= <- <-].
  - by intros [= <- <-].
Qed.

(** X12. What a step of the graph leaves alone: no node changes the topic;
    only the generator changes the roster; only the conductor changes the
    sections, and it only appends; only the report writer changes the body;
    only the intro/conclusion writer changes those two; only the finalizer
    changes the final report; and the cursor never decreases after the
    generator has run. *)
Theorem step_changes_only_its_own_fields {W} {E : Env W} n st w n' st' w' :
  graph_step n st w = Returned ((n', st'), w') →
  topic st' = topic st
  ∧ (n ≠ N_create_analysts → analysts st' = analysts st)
  ∧ sections st `prefix_of` sections st'
  ∧ (n ≠ N_conduct_interview → sections st' = sections st)
  ∧ (n ≠ N_create_analysts →
     current_analyst_index st ≤ current_analyst_index st')
  ∧ (n ≠ N_write_report → content st' = content st)
  ∧ (n ≠ N_write_intro_conclusion →
     introduction st' = introduction st ∧ conclusion st' = conclusion st)
  ∧ (n ≠ N_finalize_report → final_report st' = final_report st).
Proof.
  intros (upd & Hact%node_action_writes & -> & _)%graph_step_inv.
  destruct n.
  - destruct Hact as (roster & -> & _). cbn. split_and!; done.
  - destruct Hact as (section & -> & _). cbn.
    split_and!; try done; try (intros _; lia). by eexists.
  - destruct Hact as (report & ->). cbn. split_and!; try done; intros _; lia.
  - destruct Hact as (intro & concl & ->). cbn.
    split_and!; try done; intros _; lia.
  - subst upd. cbn. split_and!; try done; intros _; lia.
  - subst upd. cbn. split_and!; try done; intros _; lia.
Qed.

Lemma invoke_from_inv {W} {E : Env W} fuel n st w ran st'' w'' :
  invoke_from fuel n st w = Returned ((ran, st''), w'') →
  (n = END ∧ ran = [] ∧ st'' = st ∧ w'' = w)
  ∨ (n ≠ END ∧ ∃ fuel' n' st' w' ran',
       fuel = S fuel'
       ∧ graph_step n st w = Returned ((n', st'), w')
       ∧ invoke_from fuel' n' st' w' = Returned ((ran', st''), w'')
       ∧ ran = n :: ran').
Proof.
  assert (n = END ∨ n ≠ END) as [->|Hn]
    by (destruct n; first [by left | by right]).
  - rewrite invoke_from_END. intros [= <- <- <-]. by left.
  - intros Hrun. right. split; [done|].
    destruct fuel as [|fuel']; [by destruct n|].
    destruct (graph_step n st w) as [[[n' st'] w']|e] eqn:Hstep.
    + rewrite (invoke_from_step _ _ _ _ _ _ _ Hn Hstep) in Hrun.
      destruct (invoke_from fuel' n' st' w') as [[[ran' st3] w3]|] eqn:Hrest;
        [|done].
      injection Hrun as <- <- <-. by exists fuel', n', st', w', ran'.
    + by rewrite (invoke_from_raised _ _ _ _ _ Hn Hstep) in Hrun.
Qed.

(** A run that returns from [write_report] ran the three report nodes. *)
Lemma report_nodes_returned {W} {E : Env W} fuel st w ran st' w' :
  invoke_from fuel N_write_report st w = Returned ((ran, st'), w') →
  ran = report_nodes
  ∧ topic st' = topic st ∧ analysts st' = analysts st
  ∧ current_analyst_index st' = current_analyst_index st
  ∧ sections st' = sections st
  ∧ final_report st'
    = finalize (introduction st') (content st') (conclusion st').
Proof.
  intros [(? & _)|(_ & f1 & n1 & st1 & w1 & ran1 & -> & Hs1 & Hr1 & ->)]
    %invoke_from_inv; [done|].
  apply graph_step_inv in Hs1 as (u1 & Ha1%node_action_writes & -> & ->).
  destruct Ha1 as (report & ->). cbn [next_node] in Hr1.
  apply invoke_from_inv in Hr1
    as [(? & _)|(_ & f2 & n2 & st2 & w2 & ran2 & -> & Hs2 & Hr2 & ->)]; [done|].
  apply graph_step_inv in Hs2 as (u2 & Ha2%node_action_writes & -> & ->).
  destruct Ha2 as (intro & concl & ->). cbn [next_node] in Hr2.
  apply invoke_from_inv in Hr2
    as [(? & _)|(_ & f3 & n3 & st3 & w3 & ran3 & -> & Hs3 & Hr3 & ->)]; [done|].
  apply graph_step_inv in Hs3 as (u3 & Ha3%node_action_writes & -> & ->).
  cbn in Ha3. subst u3. cbn [next_node] in Hr3.
  rewrite invoke_from_END in Hr3. injection Hr3 as <- <- <-.
  split_and!; done.
Qed.

(** A run that returns from the conductor interviewed every analyst from
    the cursor on, once each. *)
Lemma interview_loop_returned {W} {E : Env W} fuel : ∀ st w ran st' w',
  invoke_from fuel N_conduct_interview st w = Returned ((ran, st'), w') →
  0 ≤ current_analyst_index st →
  ∃ k, (1 ≤ k)%nat
       ∧ ran = replicate k N_conduct_interview ++ report_nodes
       ∧ current_analyst_index st + Z.of_nat k
         = Z.of_nat (length (analysts st))
       ∧ current_analyst_index st' = Z.of_nat (length (analysts st))
       ∧ analysts st' = analysts st
       ∧ topic st' = topic st
       ∧ length (sections st') = (length (sections st) + k)%nat
       ∧ final_report st'
         = finalize (introduction st') (content st') (conclusion st').
Proof.
  induction fuel as [|fuel IH]; intros st w ran st' w' Hrun Hidx; [done|].
  apply invoke_from_inv in Hrun
    as [(? & _)|(_ & f & n1 & st1 & w1 & ran1 & [= <-] & Hs & Hr & ->)];
    [done|].
  apply graph_step_inv in Hs as (upd & Ha%node_action_writes & -> & ->).
  destruct Ha as (section & -> & Hrange).
  cbn [next_node merge foldl assign current_analyst_index analysts] in Hr.
  destruct (_ <? _) eqn:Hlt in Hr.
  - apply IH in Hr as (k & Hk & -> & Hsum & Hend & Hros & Htop & Hsec & Hfin);
      [|cbn; lia].
    cbn in Hsum, Hend, Hros, Htop, Hsec.
    exists (S k). split_and!; try done; try lia.
    rewrite Hsec, length_app. simpl. lia.
  - apply report_nodes_returned in Hr
      as (-> & Htop & Hros & Hcur & Hsec & Hfin).
    cbn in Htop, Hros, Hcur, Hsec.
    exists 1%nat. split_and!; try done; try lia.
    rewrite Hsec, length_app. simpl. lia.
Qed.

(** X13. Every run that returns has this shape: the generator ran once,
    then the conductor once per analyst of a roster of one to three, then
    the three report nodes, at most seven nodes in all; at the end the
    cursor and the number of sections equal the size of the roster, the
    topic is the one given, and the final report is the introduction, the
    body and the conclusion of the final state, a blank line between
    them. *)
Theorem returned_run_has_one_interview_per_analyst {W} {E : Env W} fuel t w
    ran st' w' :
  graph_invoke fuel t w = Returned ((ran, st'), w') →
  ∃ N, (1 ≤ N ≤ 3)%nat
       ∧ ran = N_create_analysts :: replicate N N_conduct_interview
               ++ report_nodes
       ∧ (length ran ≤ 7)%nat
       ∧ length (analysts st') = N
       ∧ current_analyst_index st' = Z.of_nat N
       ∧ length (sections st') = N
       ∧ topic st' = t
       ∧ final_report st'
         = introduction st' ++ nl ++ nl ++ content st' ++ nl ++ nl
           ++ conclusion st'.
Proof.
  unfold graph_invoke.
  intros [(? & _)|(_ & f & n1 & st1 & w1 & ran1 & -> & Hs & Hr & ->)]
    %invoke_from_inv; [done|].
  apply graph_step_inv in Hs as (upd & Ha%node_action_writes & -> & ->).
  destruct Ha as (roster & -> & Hmax). cbn [next_node] in Hr.
  apply interview_loop_returned in Hr
    as (k & Hk & -> & Hsum & Hend & Hros & Htop & Hsec & Hfin); [|done].
  cbn in Hsum, Hend, Hros, Htop, Hsec.
  assert (k = length roster) as -> by lia.
  exists (length roster). split_and!; try done; try lia.
  - cbn [length]. rewrite length_app, length_replicate. simpl. lia.
  - by rewrite Hros.
Qed.

Lemma sample_run_returns :
  ∃ r, graph_invoke (E := interview_world) 25 (lit "tides") () = Returned r.
Proof. vm_compute. by eexists. Qed.

Lemma first_interview_returns :
  ∃ r, graph_step (E := interview_world) N_conduct_interview
         default_roster_state () = Returned r.
Proof. vm_compute. by eexists. Qed.

Lemma sample_run_has_one_interview_per_analyst :
  match graph_invoke (E := interview_world) 25 (lit "tides") () with
  | Returned ((ran, st'), _) =>
      ∃ N, (1 ≤ N ≤ 3)%nat
           ∧ ran = N_create_analysts :: replicate N N_conduct_interview
                   ++ report_nodes
           ∧ (length ran ≤ 7)%nat
           ∧ length (analysts st') = N
           ∧ current_analyst_index st' = Z.of_nat N
           ∧ length (sections st') = N
           ∧ topic st' = lit "tides"
           ∧ final_report st'
             = introduction st' ++ nl ++ nl ++ content st' ++ nl ++ nl
               ++ conclusion st'
  | Raised _ => False
  end.
Proof.
  destruct (graph_invoke (E := interview_world) 25 (lit "tides") ())
    as [[[ran st'] w']|e] eqn:Hrun.
  - exact (returned_run_has_one_interview_per_analyst
             (E := interview_world) 25 (lit "tides") () ran st' w' Hrun).
  - destruct sample_run_returns as [r Hr]. congruence.
Defined.

Lemma first_interview_changes_only_its_own_fields :
  match graph_step (E := interview_world) N_conduct_interview
          default_roster_state () with
  | Returned ((_, st'), _) =>
      topic st' = topic default_roster_state
      ∧ analysts st' = analysts default_roster_state
      ∧ sections default_roster_state `prefix_of` sections st'
      ∧ current_analyst_index default_roster_state
        ≤ current_analyst_index st'
      ∧ content st' = content default_roster_state
      ∧ final_report st' = final_report default_roster_state
  | Raised _ => False
  end.
Proof.
  destruct (graph_step (E := interview_world) N_conduct_interview
              default_roster_state ()) as [[[n' st'] w']|e] eqn:Hstep.
  - destruct (step_changes_only_its_own_fields (E := interview_world)
                _ _ _ _ _ _ Hstep)
      as (Ht & Ha & Hp & _ & Hc & Hb & _ & Hf).
    split_and!; [done|by apply Ha|done|by apply Hc|by apply Hb|by apply Hf].
  - destruct first_interview_returns as [r Hr]. congruence.
Defined.





Lemma mapM_raised_at {A B} (f : A → outcome B) ok x rest e :
  Forall (λ y, ∃ b, f y = Returned b) ok →
  f x = Raised e →
  mapM f (ok ++ x :: rest) = Raised e.
Proof.
  intros Hok Hx. induction Hok as [|y ok [b Hb] _ IH]; simpl.
  - by rewrite Hx.
  - rewrite Hb. simpl. fold (mapM f (ok ++ x :: rest)). by rewrite IH.
Qed.

(** X16. An entry among the first three that is not an object (a string, a
    number, a list, null), with only valid records before it, makes the
    generator raise [TypeError]: the handler does not recover from it and
    there is no fallback roster. *)
Theorem non_object_entry_aborts_the_generator {W} {E : Env W} state w text w'
    d l valid v rest :
  llm_invoke (analysts_request state) w = Returned (text, w') →
  json_loads text = Returned (PyDict d) →
  d !! lit "analysts" = Some (PyList l) →
  take 3 l = valid ++ v :: rest →
  Forall (λ x, ∃ a, Analyst_of x = Returned a) valid →
  ¬ is_dict v →
  create_analysts state w = Raised TypeError.
Proof.
  intros Hllm Hjson Hkey Hl Hvalid Hv.
  rewrite (create_analysts_run _ _ _ _ Hllm).
  unfold analysts_or_default, parse_analysts. rewrite Hjson. simpl.
  rewrite Hkey. simpl. rewrite Hl.
  rewrite (mapM_raised_at _ _ _ _ TypeError Hvalid); [done|].
  destruct v; try done. destruct Hv. by eexists.
Qed.

Lemma roster_of_names_aborts_the_generator :
  create_analysts
    (E := scripted names_only_text (Returned names_only_json) [] [])
    (initial_state (lit "tides")) ()
  = Raised TypeError.
Proof.
  apply (non_object_entry_aborts_the_generator
           (E := scripted names_only_text (Returned names_only_json) [] [])
           (initial_state (lit "tides")) () names_only_text ()
           {[ lit "analysts" := PyList [PyStr (lit "Ada")] ]}
           [PyStr (lit "Ada")] [] (PyStr (lit "Ada")) []).
  - reflexivity.
  - vm_compute. reflexivity.
  - vm_compute. reflexivity.
  - reflexivity.
  - constructor.
  - intros [d Hd]. discriminate.
Defined.

(** X17. The conductor has two failures of its own: [IndexError], when the
    cursor is outside the roster, and [TypeError], when an item kept from
    the search results is not text. Any other exception it raises was
    raised by one of the three services, and is passed on unchanged. *)
Theorem conductor_failures_are_its_own_or_of_a_service {W} {E : Env W}
    state w e :
  conduct_interview state w = Raised e →
  e = IndexError ∨ e = TypeError
  ∨ (∃ msgs w0, llm_invoke msgs w0 = Raised e)
  ∨ (∃ q w0, tavily_search_invoke q w0 = Raised e)
  ∨ (∃ q w0, wikipedia_load q w0 = Raised e).
Proof.
  unfold conduct_interview, mbind, M_bind.
  destruct (list_getitem _ _) as [analyst|e0] eqn:Hget; cbn [lift].
  2:{ intros [= <-]. left. unfold list_getitem in Hget.
      destruct (_ && _); [|congruence].
      destruct (_ !! _); congruence. }
  destruct (llm_invoke _ w) as [[question w1]|e1] eqn:H1;
    [|intros [= <-]; right; right; left; eauto].
  destruct (llm_invoke _ w1) as [[query w2]|e2] eqn:H2;
    [|intros [= <-]; right; right; left; eauto].
  destruct (tavily_search_invoke query w2) as [[docs w3]|e3] eqn:H3;
    [|intros [= <-]; right; right; right; left; eauto].
  destruct (wikipedia_load query w3) as [[pages w4]|e4] eqn:H4;
    [|intros [= <-]; right; right; right; right; eauto].
  destruct (interview_context docs pages) as [context|e5] eqn:H5; cbn [lift].
  2:{ intros [= <-]. right; left. unfold interview_context, py_join in H5.
      destruct (as_strs _) eqn:Hall; [done|].
      injection H5 as <-. by eapply as_strs_raised. }
  destruct (llm_invoke _ w4) as [[answer w5]|e6] eqn:H6;
    [|intros [= <-]; right; right; left; eauto].
  destruct (llm_invoke _ w5) as [[section w6]|e7] eqn:H7;
    [|intros [= <-]; right; right; left; eauto].
  done.
Qed.

Lemma conductor_past_the_roster_fails_on_its_own :
  IndexError = IndexError ∨ IndexError = TypeError
  ∨ (∃ msgs w0, llm_invoke (Env := interview_world) msgs w0 = Raised IndexError)
  ∨ (∃ q w0, tavily_search_invoke (Env := interview_world) q w0
             = Raised IndexError)
  ∨ (∃ q w0, wikipedia_load (Env := interview_world) q w0 = Raised IndexError).
Proof.
  apply (conductor_failures_are_its_own_or_of_a_service (E := interview_world)
           (merge two_analysts_state [Set_current_analyst_index 2]) ()).
  vm_compute. reflexivity.
Defined.
